(** * Podcast generator for Google multi-speaker TTS: dialogue core

    A shallow embedding of the text-structuring core of
    [google_podcast_server.py]:

    - [generate_dialogue_turns]  (turn generation from a format template),
    - [parse_google_script]      (pipe tier, colon tier, paragraph fallback),
    - the [convert_to_google_format] branch of [call_tool]
      (speaker detection, assignment to R/S/T/U, rewriting).

    Python [str] values are modelled as [string]; a character is a code
    point below 256.  Python exceptions are modelled by the [result] type. *)

From Stdlib Require Import Strings.String Strings.Ascii Lists.List ZArith.ZArith
  Arith.PeanoNat Bool.Bool micromega.Lia.
Import ListNotations.

Local Open Scope list_scope.
Local Open Scope string_scope.

(* ================================================================== *)
(** ** Python string primitives *)

Module PyStr.

(** Line feed, the [chr(10)] of the source. *)
Definition LF_char : ascii := "010"%char.
Definition LF : string := String LF_char "".

(** [str.isspace] on one code point below 256: TAB, LF, VT, FF, CR,
    FS, GS, RS, US, SPACE, NEL (0x85) and NBSP (0xA0).  The same set is
    the class [\s] of [re] on [str] patterns. *)
Definition is_space (c : ascii) : bool :=
  let n := nat_of_ascii c in
  (((9 <=? n) && (n <=? 13)) || ((28 <=? n) && (n <=? 32))
   || (n =? 133) || (n =? 160))%nat.

(** Truthiness of a [str]: non-empty. *)
Definition truthy (s : string) : bool :=
  match s with "" => false | _ => true end.

(** [s.lstrip()] *)
Fixpoint lstrip (s : string) : string :=
  match s with
  | "" => ""
  | String c s' => if is_space c then lstrip s' else s
  end.

(** [s.rstrip()] *)
Fixpoint rstrip (s : string) : string :=
  match s with
  | "" => ""
  | String c s' =>
      let r := rstrip s' in
      if is_space c && negb (truthy r) then "" else String c r
  end.

(** [s.strip()] *)
Definition strip (s : string) : string := rstrip (lstrip s).

(** [s.upper()] on one code point.  Latin small letters map to their
    capitals; sharp s expands to two letters.  The capitals of the micro
    sign (0xB5) and of y-diaeresis (0xFF) lie above code point 255: the
    model leaves these two unchanged. *)
Definition upper_char (c : ascii) : string :=
  let n := nat_of_ascii c in
  if ((97 <=? n) && (n <=? 122))%nat then String (ascii_of_nat (n - 32)) ""
  else if (n =? 223)%nat then "SS"
  else if ((224 <=? n) && (n <=? 254) && negb (n =? 247))%nat
       then String (ascii_of_nat (n - 32)) ""
  else String c "".

Fixpoint upper (s : string) : string :=
  match s with
  | "" => ""
  | String c s' => upper_char c ++ upper s'
  end.

(** [s.startswith(p)] *)
Fixpoint startswith (s p : string) {struct p} : bool :=
  match p with
  | "" => true
  | String a p' =>
      match s with
      | String b s' => Ascii.eqb b a && startswith s' p'
      | "" => false
      end
  end.

(** [sub in s] *)
Fixpoint contains (sub s : string) : bool :=
  startswith s sub ||
  match s with
  | "" => false
  | String _ s' => contains sub s'
  end.

Definition cons_head (a : ascii) (l : list string) : list string :=
  match l with
  | x :: xs => String a x :: xs
  | [] => [String a ""]
  end.

Definition can_split (maxsplit : option nat) : bool :=
  match maxsplit with Some 0 => false | _ => true end.

Definition dec_split (maxsplit : option nat) : option nat :=
  match maxsplit with Some n => Some (pred n) | None => None end.

(** Left-to-right scan of [s.split(sep, maxsplit)] for a non-empty
    [sep]; [skip] counts the characters of the separator occurrence
    still to be passed over, [maxsplit = None] is the unlimited
    default. *)
Fixpoint split_go (sep : string) (maxsplit : option nat) (skip : nat)
                  (s : string) : list string :=
  match s with
  | "" => [""]
  | String a s' =>
      match skip with
      | S n => split_go sep maxsplit n s'
      | O =>
          if can_split maxsplit && startswith s sep
          then "" :: split_go sep (dec_split maxsplit) (String.length sep - 1) s'
          else cons_head a (split_go sep maxsplit 0 s')
      end
  end.

(** [s.split(sep)] *)
Definition split (sep s : string) : list string := split_go sep None 0 s.

(** [s.split(sep, n)] *)
Definition split_max (sep s : string) (n : nat) : list string :=
  split_go sep (Some n) 0 s.

(** [sep.join(l)] *)
Definition join (sep : string) (l : list string) : string := String.concat sep l.

(** [x in l] for a list of strings. *)
Definition list_mem (x : string) (l : list string) : bool :=
  existsb (String.eqb x) l.

End PyStr.
Import PyStr.

(* ================================================================== *)
(** ** The fragment of [re] used by the source

    A backtracking matcher in continuation-passing style: alternatives
    are tried in the order of Python's engine (greedy quantifiers longest
    first, lazy ones shortest first), the first success wins.  Repetition
    is only ever applied to a character class in the three patterns of the
    source, which keeps the matcher structurally recursive. *)

Module Re.

(** One item of a bracketed character class. *)
Inductive citem : Type :=
| IDot                          (* .   : anything but a line feed *)
| ISpace                        (* \s  *)
| ILit (c : ascii)              (* a literal character *)
| IRange (lo hi : ascii).       (* a-z *)

Definition citem_mem (c : ascii) (i : citem) : bool :=
  match i with
  | IDot => negb (Ascii.eqb c LF_char)
  | ISpace => is_space c
  | ILit d => Ascii.eqb c d
  | IRange lo hi =>
      ((nat_of_ascii lo <=? nat_of_ascii c)
       && (nat_of_ascii c <=? nat_of_ascii hi))%nat
  end.

(** A character class: the union of its items. *)
Definition cset := list citem.

Definition cset_mem (c : ascii) (p : cset) : bool :=
  existsb (citem_mem c) p.

Inductive regex : Type :=
| RBol                              (* ^ *)
| REol                              (* $ *)
| RSet (p : cset)                   (* one character of a class *)
| RStar (greedy : bool) (p : cset)  (* p* and p*? *)
| RPlus (greedy : bool) (p : cset)  (* p+ and p+? *)
| ROpt (r : regex)                  (* (?:r)? *)
| RGroup (n : nat) (r : regex)      (* (r), the n-th capture group *)
| RSeq (r1 r2 : regex).

(** Capture groups, most recent binding first. *)
Definition groups := list (nat * string).

Definition group (g : groups) (n : nat) : string :=
  match find (fun p => (fst p =? n)%nat) g with
  | Some p => snd p
  | None => ""
  end.

Definition cont := nat -> string -> groups -> option groups.

Definition orelse {A} (x y : option A) : option A :=
  match x with Some _ => x | None => y end.

Fixpoint star_greedy (p : cset) (pos : nat) (s : string) (g : groups)
                     (k : cont) : option groups :=
  match s with
  | String c s' =>
      if cset_mem c p
      then orelse (star_greedy p (S pos) s' g k) (k pos s g)
      else k pos s g
  | "" => k pos s g
  end.

Fixpoint star_lazy (p : cset) (pos : nat) (s : string) (g : groups)
                   (k : cont) : option groups :=
  orelse (k pos s g)
         match s with
         | String c s' =>
             if cset_mem c p then star_lazy p (S pos) s' g k else None
         | "" => None
         end.

Definition star (greedy : bool) := if greedy then star_greedy else star_lazy.

(** The first [n] characters of [s]. *)
Definition take (n : nat) (s : string) : string := substring 0 n s.

Fixpoint rmatch (r : regex) (pos : nat) (s : string) (g : groups)
                (k : cont) : option groups :=
  match r with
  | RBol => if (pos =? 0)%nat then k pos s g else None
  | REol => if String.eqb s "" || String.eqb s LF then k pos s g else None
  | RSet p =>
      match s with
      | String c s' => if cset_mem c p then k (S pos) s' g else None
      | "" => None
      end
  | RStar greedy p => star greedy p pos s g k
  | RPlus greedy p =>
      match s with
      | String c s' =>
          if cset_mem c p then star greedy p (S pos) s' g k else None
      | "" => None
      end
  | ROpt r' => orelse (rmatch r' pos s g k) (k pos s g)
  | RGroup n r' =>
      rmatch r' pos s g
             (fun pos' s' g' => k pos' s' ((n, take (pos' - pos) s) :: g'))
  | RSeq r1 r2 =>
      rmatch r1 pos s g (fun pos' s' g' => rmatch r2 pos' s' g' k)
  end.

(** [re.match(pattern, s)]: anchored at the start, the pattern need not
    reach the end of [s]. *)
Definition re_match (r : regex) (s : string) : option groups :=
  rmatch r 0 s [] (fun _ _ g => Some g).

Fixpoint seq_of (l : list regex) : regex :=
  match l with
  | [] => RStar true []
  | [r] => r
  | r :: l' => RSeq r (seq_of l')
  end.

End Re.
Import Re.

(* ================================================================== *)
(** ** Exceptions *)

Inductive exn : Type := ZeroDivisionError | IndexError | KeyError.

Inductive result (A : Type) : Type :=
| Ok (a : A)
| Raise (e : exn).
Arguments Ok {A} a.
Arguments Raise {A} e.

Definition bind {A B} (m : result A) (f : A -> result B) : result B :=
  match m with
  | Ok a => f a
  | Raise e => Raise e
  end.

Notation "x <- m ;; k" := (bind m (fun x => k))
  (at level 61, m at next level, right associativity).

(** [l[i]] *)
Definition list_get {A} (l : list A) (i : nat) : result A :=
  match nth_error l i with
  | Some x => Ok x
  | None => Raise IndexError
  end.

(** [a % b] on non-negative integers. *)
Definition py_mod (a b : nat) : result nat :=
  match b with
  | 0 => Raise ZeroDivisionError
  | _ => Ok (a mod b)
  end.

(** [range(n)] for a Python integer [n]: empty when [n <= 0]. *)
Definition range (n : Z) : list nat := seq 0 (Z.to_nat n).

(** [for i in l: st = body(i, st)], stopping at the first exception. *)
Fixpoint for_each {A S} (l : list A) (body : A -> S -> result S) (st : S)
  : result S :=
  match l with
  | [] => Ok st
  | i :: l' => st' <- body i st ;; for_each l' body st'
  end.

(** A [dict] with string keys, in insertion order. *)
Definition dict (V : Type) := list (string * V).

Fixpoint dict_get {V} (d : dict V) (k : string) : option V :=
  match d with
  | [] => None
  | (k', v) :: d' => if String.eqb k k' then Some v else dict_get d' k
  end.

Definition dict_has {V} (d : dict V) (k : string) : bool :=
  match dict_get d k with Some _ => true | None => false end.

(** [d[k] = v]: an existing key keeps its place, a new one goes last. *)
Fixpoint dict_set {V} (d : dict V) (k : string) (v : V) : dict V :=
  match d with
  | [] => [(k, v)]
  | (k', v') :: d' =>
      if String.eqb k k' then (k', v) :: d' else (k', v') :: dict_set d' k v
  end.

Definition dict_keys {V} (d : dict V) : list string := map fst d.

(* ================================================================== *)
(** ** Data model *)

(** A turn, the [{"speaker": ..., "text": ...}] of the source. *)
Record Turn : Type := mkTurn { speaker : string; text : string }.

Record SpeakerInfo : Type := mkSpeakerInfo {
  sp_name : string;
  sp_personality : string;
  sp_description : string
}.

Definition GOOGLE_SPEAKERS : dict SpeakerInfo :=
  [ ("R", mkSpeakerInfo "Speaker R" "warm_engaging"
            "Friendly, conversational voice suitable for hosts");
    ("S", mkSpeakerInfo "Speaker S" "analytical"
            "Clear, informative voice suitable for experts");
    ("T", mkSpeakerInfo "Speaker T" "energetic"
            "Dynamic voice suitable for enthusiastic commentary");
    ("U", mkSpeakerInfo "Speaker U" "contemplative"
            "Thoughtful voice suitable for deeper discussions") ].

Record FormatInfo : Type := mkFormat {
  description : string;
  speakers : list string;
  style : option string;
  roles : dict string
}.

Definition dialogue_format : FormatInfo :=
  mkFormat "Two-person conversational format" ["R"; "S"]
           (Some "Natural back-and-forth discussion") [].

Definition PODCAST_FORMATS : dict FormatInfo :=
  [ ("dialogue", dialogue_format);
    ("interview",
      mkFormat "Host interviewing an expert" ["R"; "S"] None
               [("R", "Host"); ("S", "Expert")]);
    ("roundtable",
      mkFormat "Multi-person discussion (up to 4 speakers)"
               ["R"; "S"; "T"; "U"]
               (Some "Collaborative discussion with multiple viewpoints") []);
    ("storytelling",
      mkFormat "Narrative with character voices" ["R"; "S"; "T"] None
               [("R", "Narrator"); ("S", "Character 1"); ("T", "Character 2")]);
    ("educational",
      mkFormat "Teaching format with Q&A" ["R"; "S"] None
               [("R", "Teacher"); ("S", "Student")]);
    ("debate",
      mkFormat "Point-counterpoint discussion" ["R"; "S"; "T"] None
               [("R", "Moderator"); ("S", "Advocate"); ("T", "Opponent")]) ].

(** The [additional_context] dictionary, typed: the one key the generator
    reads, [key_points], bound to a list of strings when present, and the
    remaining string-valued entries ([tone] and the like). *)
Record AdditionalContext : Type := mkContext {
  key_points : option (list string);
  other_entries : dict string
}.

(** Truthiness of the dictionary: it has at least one key. *)
Definition context_truthy (c : AdditionalContext) : bool :=
  match key_points c, other_entries c with
  | None, [] => false
  | _, _ => true
  end.

(* ================================================================== *)
(** ** generate_dialogue_turns *)

Definition content_prompts : list string :=
  [ "What's the most important thing people should understand?";
    "Can you give us a specific example?";
    "How does this impact our daily lives?";
    "What are the common misconceptions?";
    "What does the future hold?";
    "What challenges do we face?";
    "Are there any surprising aspects?";
    "How can people get involved?";
    "What's your personal experience with this?";
    "What advice would you give?" ].

Definition responses : list string :=
  [ "That's a great question. Let me explain...";
    "Actually, it's quite fascinating when you look at it closely...";
    "People often don't realize that...";
    "From my perspective, the key is...";
    "What's really interesting is...";
    "The data shows us that...";
    "In my experience...";
    "Here's what I've learned...";
    "The breakthrough came when...";
    "This reminds me of..." ].

Definition reactions : list string :=
  [ "I'd like to add to that point...";
    "That's interesting, but have you considered...";
    "Building on what was just said...";
    "From another angle..." ].

(** [turns.append(t)] *)
Definition append (turns : list Turn) (t : Turn) : list Turn :=
  (turns ++ [t])%list.

(** The opening block (source lines 110-141). *)
Definition opening (topic format_type : string) (speakers : list string)
                   (turns : list Turn) : result (list Turn) :=
  if String.eqb format_type "interview" then
    let turns := append turns (mkTurn "R"
      ("Welcome to today's discussion about " ++ topic ++
       ". I'm here with an expert who's going to share fascinating insights with us.")) in
    Ok (append turns (mkTurn "S"
      "Thank you for having me! I'm excited to dive into this topic with your listeners."))
  else if String.eqb format_type "debate" then
    let turns := append turns (mkTurn "R"
      ("Welcome to our debate on " ++ topic ++
       ". We have two distinguished speakers with opposing viewpoints.")) in
    let turns := append turns (mkTurn "S"
      "I'm here to argue for the positive aspects and potential benefits.") in
    Ok (append turns (mkTurn "T"
      "And I'll be presenting the concerns and challenges we need to consider."))
  else
    s0 <- list_get speakers 0 ;;
    let turns := append turns (mkTurn s0 ("Let's explore " ++ topic ++ " together.")) in
    if (1 <? List.length speakers)%nat then
      s1 <- list_get speakers 1 ;;
      Ok (append turns (mkTurn s1
        "Absolutely! This is such a relevant topic right now."))
    else Ok turns.

(** One iteration of the main loop (source lines 171-207). *)
Definition main_turn (topic : string) (speakers : list string)
                     (additional_context : option AdditionalContext)
                     (i : nat) (turns : list Turn) : result (list Turn) :=
  question_speaker <- list_get speakers 0 ;;
  qi <- py_mod i (List.length content_prompts) ;;
  question <- list_get content_prompts qi ;;
  let turns := append turns (mkTurn question_speaker question) in
  ri <- py_mod 1 (List.length speakers) ;;
  response_speaker <- list_get speakers ri ;;
  ii <- py_mod i (List.length responses) ;;
  response_intro <- list_get responses ii ;;
  response_text <-
    match additional_context with
    | Some c =>
        if context_truthy c then
          match key_points c with
          | Some kp =>
              pi <- py_mod i (List.length kp) ;;
              point <- list_get kp pi ;;
              Ok (response_intro ++ " When it comes to " ++ point ++ " in "
                  ++ topic ++ ", we're seeing significant developments.")
          | None =>
              Ok (response_intro ++ " " ++ topic
                  ++ " has many dimensions we need to consider.")
          end
        else Ok (response_intro ++ " " ++ topic
                 ++ " has many dimensions we need to consider.")
    | None => Ok (response_intro ++ " " ++ topic
                  ++ " has many dimensions we need to consider.")
    end ;;
  let turns := append turns (mkTurn response_speaker response_text) in
  if ((2 <? List.length speakers) && (i mod 3 =? 0))%nat then
    xi <- py_mod 2 (List.length speakers) ;;
    reaction_speaker <- list_get speakers xi ;;
    ci <- py_mod i (List.length reactions) ;;
    reaction <- list_get reactions ci ;;
    Ok (append turns (mkTurn reaction_speaker reaction))
  else Ok turns.

(** The closing block (source lines 210-224). *)
Definition closing (topic : string) (speakers : list string)
                   (turns : list Turn) : result (list Turn) :=
  s0 <- list_get speakers 0 ;;
  let turns := append turns (mkTurn s0
    ("This has been an enlightening discussion about " ++ topic
     ++ ". Any final thoughts?")) in
  turns <-
    (if (1 <? List.length speakers)%nat then
       s1 <- list_get speakers 1 ;;
       Ok (append turns (mkTurn s1
         "The key takeaway is to stay informed and engaged with these developments."))
     else Ok turns) ;;
  s0' <- list_get speakers 0 ;;
  Ok (append turns (mkTurn s0' "Thank you for joining us today. Until next time!")).

(** [PODCAST_FORMATS.get(format_type, PODCAST_FORMATS["dialogue"])] *)
Definition format_lookup (format_type : string) : FormatInfo :=
  match dict_get PODCAST_FORMATS format_type with
  | Some f => f
  | None => dialogue_format
  end.

Definition generate_dialogue_turns (topic format_type : string)
    (duration_minutes : Z) (additional_context : option AdditionalContext)
  : result (list Turn) :=
  let format_info := format_lookup format_type in
  let speakers := speakers format_info in
  let num_turns := (duration_minutes * 2)%Z in
  turns <- opening topic format_type speakers [] ;;
  turns <- for_each
             (range (Z.min (num_turns - 4) (Z.of_nat (List.length content_prompts))))
             (main_turn topic speakers additional_context) turns ;;
  closing topic speakers turns.

(** The canonical line of a turn and the sample script of
    [generate_google_script] (source line 554). *)
Definition turn_line (t : Turn) : string := speaker t ++ "|" ++ text t.

Definition sample_script (turns : list Turn) : string :=
  join LF (map turn_line turns).

(* ================================================================== *)
(** ** parse_google_script *)

(** [r'^([RSTU]):\s*(.+)$'] *)
Definition colon_re : regex :=
  seq_of [ RBol;
           RGroup 1 (RSet [ILit "R"; ILit "S"; ILit "T"; ILit "U"]);
           RSet [ILit ":"];
           RStar true [ISpace];
           RGroup 2 (RPlus true [IDot]);
           REol ].

(** The pipe tier (source lines 301-312). *)
Definition pipe_tier (line : string) (turns : list Turn) : list Turn :=
  let parts := split_max "|" line 1 in
  if (List.length parts =? 2)%nat then
    let speaker := upper (strip (nth 0 parts "")) in
    let text := strip (nth 1 parts "") in
    if dict_has GOOGLE_SPEAKERS speaker && truthy text
    then append turns (mkTurn speaker text)
    else turns
  else turns.

(** The colon tier (source lines 315-324). *)
Definition colon_tier (line : string) (turns : list Turn) : list Turn :=
  match re_match colon_re line with
  | Some m =>
      let speaker := group m 1 in
      let text := strip (group m 2) in
      if truthy text then append turns (mkTurn speaker text) else turns
  | None => turns
  end.

(** The body of the loop over the lines (source lines 295-324). *)
Definition parse_line (line : string) (turns : list Turn) : list Turn :=
  let line := strip line in
  if negb (truthy line) || startswith line "#" || startswith line "//"
  then turns
  else if contains "|" line then pipe_tier line turns
  else if contains ":" line then colon_tier line turns
  else turns.

(** [enumerate(l)] *)
Definition enumerate {A} (l : list A) : list (nat * A) :=
  combine (seq 0 (List.length l)) l.

(** The paragraph fallback (source lines 328-335).  The index into the
    two-element local list [speakers] is always in range. *)
Definition paragraph_fallback (script : string) (turns : list Turn)
  : list Turn :=
  let paragraphs :=
    map strip (filter (fun p => truthy (strip p)) (split (LF ++ LF) script)) in
  let speakers := ["R"; "S"] in
  fold_left
    (fun turns ip =>
       append turns
         (mkTurn (nth (fst ip mod List.length speakers) speakers "") (snd ip)))
    (enumerate paragraphs) turns.

Definition parse_google_script (script : string) : list Turn :=
  let lines := split LF (strip script) in
  let turns := fold_left (fun turns line => parse_line line turns) lines [] in
  if negb (match turns with [] => false | _ => true end) && truthy (strip script)
  then paragraph_fallback script turns
  else turns.

(* ================================================================== *)
(** ** The convert_to_google_format branch of call_tool *)

(** [[A-Za-z\s\-\'\.]] *)
Definition label_class : cset :=
  [IRange "A" "Z"; IRange "a" "z"; ISpace; ILit "-"; ILit "'"; ILit "."].

(** [^([A-Za-z\s\-\'\.]+?)(?:\s*\[.*?\])?\s*:\s*], the common prefix of
    the two label patterns. *)
Definition label_prefix : list regex :=
  [ RBol;
    RGroup 1 (RPlus false label_class);
    ROpt (seq_of [ RStar true [ISpace]; RSet [ILit "["];
                   RStar false [IDot]; RSet [ILit "]"] ]);
    RStar true [ISpace];
    RSet [ILit ":"];
    RStar true [ISpace] ].

(** The pattern of the detection loop (source line 726). *)
Definition detect_re : regex := seq_of label_prefix.

(** The pattern of the conversion loop (source line 748): the prefix,
    then [(.+)$]. *)
Definition convert_re : regex :=
  seq_of (label_prefix ++ [RGroup 2 (RPlus true [IDot]); REol])%list.

(** The body of the detection loop (source lines 723-730). *)
Definition detect_line (line : string) (speakers : list string)
  : list string :=
  if contains ":" line then
    match re_match detect_re line with
    | Some m =>
        let speaker := strip (group m 1) in
        if truthy speaker && negb (list_mem speaker speakers)
        then (speakers ++ [speaker])%list
        else speakers
    | None => speakers
    end
  else speakers.

Definition detect_speakers (script : string) : list string :=
  fold_left (fun speakers line => detect_line line speakers)
            (split LF script) [].

Definition google_ids : list string := ["R"; "S"; "T"; "U"].

(** The assignment loop (source lines 733-735). *)
Definition assign_ids (speakers : list string) (speaker_mapping : dict string)
  : result (dict string) :=
  for_each (enumerate (firstn 4 speakers))
           (fun ip m => id <- list_get google_ids (fst ip) ;;
                        Ok (dict_set m (snd ip) id))
           speaker_mapping.

(** The mapping used by the conversion: the caller's when it is a
    non-empty dictionary, the detected one otherwise (source lines
    715-735). *)
Definition resolve_mapping (script : string) (arg : option (dict string))
  : result (dict string) :=
  let speaker_mapping := match arg with Some m => m | None => [] end in
  match speaker_mapping with
  | [] => assign_ids (detect_speakers script) speaker_mapping
  | _ => Ok speaker_mapping
  end.

(** [converted_lines.append(l)] *)
Definition append_line (converted_lines : list string) (l : string)
  : list string := (converted_lines ++ [l])%list.

(** The body of the conversion loop (source lines 741-756). *)
Definition convert_line (speaker_mapping : dict string) (line : string)
                        (converted_lines : list string) : list string :=
  let line := strip line in
  if negb (truthy line) then converted_lines
  else if contains ":" line then
    match re_match convert_re line with
    | Some m =>
        let speaker := strip (group m 1) in
        let text := strip (group m 2) in
        match dict_get speaker_mapping speaker with
        | Some google_id =>
            if truthy google_id && truthy text
            then append_line converted_lines (google_id ++ "|" ++ text)
            else converted_lines
        | None => converted_lines
        end
    | None => converted_lines
    end
  else converted_lines.

Definition convert_lines (speaker_mapping : dict string) (script : string)
  : list string :=
  fold_left (fun acc line => convert_line speaker_mapping line acc)
            (split LF script) [].

(** What the branch answers.  The text of the success message is kept in
    structured form: the listing of the mapping, each entry with the
    description of its Google speaker, and the converted script. *)
Inductive Reply : Type :=
| ErrorText (msg : string)
| Converted (listing : list (string * string * string))
            (converted_script : string).

(** The listing of the success message (source line 771):
    [GOOGLE_SPEAKERS[v]] raises [KeyError] for a value that is no key. *)
Fixpoint mapping_listing (m : dict string)
  : result (list (string * string * string)) :=
  match m with
  | [] => Ok []
  | (k, v) :: m' =>
      match dict_get GOOGLE_SPEAKERS v with
      | Some info =>
          rest <- mapping_listing m' ;;
          Ok ((k, v, sp_description info) :: rest)
      | None => Raise KeyError
      end
  end.

Definition convert_to_google_format (script : option string)
    (speaker_mapping : option (dict string)) : result Reply :=
  match script with
  | None | Some "" => Ok (ErrorText "Error: script parameter is required")
  | Some script =>
      speaker_mapping <- resolve_mapping script speaker_mapping ;;
      let converted_lines := convert_lines speaker_mapping script in
      match converted_lines with
      | [] => Ok (ErrorText
                "Error: Could not convert script. No valid dialogue found.")
      | _ =>
          let converted_script := join LF converted_lines in
          listing <- mapping_listing speaker_mapping ;;
          Ok (Converted listing converted_script)
      end
  end.

(* ================================================================== *)
(** ** Predicates used in the statements *)

(** No line feed anywhere in [s]. *)
Fixpoint no_lf (s : string) : bool :=
  match s with
  | "" => true
  | String c s' => negb (Ascii.eqb c LF_char) && no_lf s'
  end.

(** The first character exists and is not whitespace. *)
Definition first_ok (s : string) : bool :=
  match s with
  | String c _ => negb (is_space c)
  | "" => false
  end.

(** The last character exists and is not whitespace. *)
Fixpoint last_ok (s : string) : bool :=
  match s with
  | "" => false
  | String c "" => negb (is_space c)
  | String _ s' => last_ok s'
  end.

(** A text that survives a line-based round trip: one line, non-empty,
    no whitespace at either end. *)
Definition line_safe (s : string) : bool := no_lf s && first_ok s && last_ok s.

Definition is_canonical (s : string) : bool := list_mem s google_ids.

Definition turn_ok (t : Turn) : bool :=
  is_canonical (speaker t) && line_safe (text t).

(** A context the main loop can index: [key_points], when present, is
    not the empty list. *)
Definition key_points_indexable (c : option AdditionalContext) : bool :=
  match c with
  | Some c' =>
      match key_points c' with
      | Some [] => false
      | _ => true
      end
  | None => true
  end.

(** No key point holds a line feed. *)
Definition key_points_one_line (c : option AdditionalContext) : bool :=
  match c with
  | Some c' =>
      match key_points c' with
      | Some kp => forallb no_lf kp
      | None => true
      end
  | None => true
  end.

(** The labels of a list in the order of their first appearance. *)
Fixpoint first_appearance (l : list string) : list string :=
  match l with
  | [] => []
  | x :: l' => x :: filter (fun y => negb (String.eqb y x)) (first_appearance l')
  end.

(** The label the detection pattern finds on one line, if any. *)
Definition detected_label (line : string) : list string :=
  if contains ":" line then
    match re_match detect_re line with
    | Some m => if truthy (strip (group m 1)) then [strip (group m 1)] else []
    | None => []
    end
  else [].

(** The reading of the colon tier that insists on a whitespace character
    after the colon: canonical letter, colon, whitespace. *)
Definition letter_colon_space (line : string) : bool :=
  match line with
  | String c (String d (String w _)) =>
      is_canonical (String c "") && Ascii.eqb d ":" && is_space w
  | _ => false
  end.

(** The colon tier as the code has it: canonical letter, colon, and a
    remainder that is not blank; the turn it stands for. *)
Definition letter_colon_text (line : string) : option Turn :=
  match line with
  | String c (String d r) =>
      if is_canonical (String c "") && Ascii.eqb d ":" && truthy (strip r)
      then Some (mkTurn (String c "") (strip r))
      else None
  | _ => None
  end.

(** What the pattern of the colon tier has left to match after the
    colon and the whitespace: [(.+)$]. *)
Definition text_cont : cont :=
  fun pos s g =>
    rmatch (RSeq (RGroup 2 (RPlus true [IDot])) REol) pos s g
           (fun _ _ g' => Some g').

(** [if x not in speakers: speakers.append(x)] *)
Definition add_label (speakers : list string) (x : string) : list string :=
  if list_mem x speakers then speakers else (speakers ++ [x])%list.

(** What the statements on the generator say of one generated turn. *)
Definition generated_ok (topic : string) (sp : list string)
    (ctx : option AdditionalContext) (t : Turn) : Prop :=
  In (speaker t) sp /\
  (no_lf topic = true -> key_points_one_line ctx = true ->
   line_safe (text t) = true).

(* ================================================================== *)
(** ** The statistics of create_google_audio

    The handler synthesises speech through an external service; the part
    modelled here is the summary it computes from the parsed turns
    (source lines 660-678). *)

(** [counts.get(k, 0)] *)
Definition count_of (counts : dict nat) (k : string) : nat :=
  match dict_get counts k with
  | Some n => n
  | None => 0
  end.

(** The counting loop (source lines 661-664). *)
Definition speaker_counts (turns : list Turn) : dict nat :=
  fold_left
    (fun counts turn =>
       let speaker := speaker turn in
       dict_set counts speaker (count_of counts speaker + 1))
    turns [].

Fixpoint insert_sorted (x : string) (l : list string) : list string :=
  match l with
  | [] => [x]
  | y :: l' => if String.leb x y then x :: l else y :: insert_sorted x l'
  end.

(** [sorted(l)] on strings: ascending code-point order. *)
Definition sorted (l : list string) : list string :=
  fold_right insert_sorted [] l.

(** The entries of the speaker guide (source line 678), each key with
    [GOOGLE_SPEAKERS[k]['description']]; a key outside the table raises
    [KeyError]. *)
Fixpoint guide_entries (keys : list string) : result (list (string * string)) :=
  match keys with
  | [] => Ok []
  | k :: keys' =>
      match dict_get GOOGLE_SPEAKERS k with
      | Some info =>
          rest <- guide_entries keys' ;;
          Ok ((k, sp_description info) :: rest)
      | None => Raise KeyError
      end
  end.

Definition speaker_guide (turns : list Turn) : result (list (string * string)) :=
  guide_entries (sorted (dict_keys (speaker_counts turns))).

(** A parsed turn is valid: canonical speaker, text neither empty nor
    with whitespace at either end. *)
Definition turn_valid (t : Turn) : bool :=
  is_canonical (speaker t) && first_ok (text t) && last_ok (text t).

(** Every captured group is free of line feeds. *)
Definition groups_one_line (g : groups) : bool :=
  forallb (fun p => no_lf (snd p)) g.

(** A continuation of the matcher that, on a one-line rest and one-line
    groups, only answers one-line groups. *)
Definition cont_one_line (k : cont) : Prop :=
  forall pos s g m,
    no_lf s = true -> groups_one_line g = true ->
    k pos s g = Some m -> groups_one_line m = true.

(** Every value of a mapping is one of R, S, T, U. *)
Definition mapping_canonical (m : dict string) : bool :=
  forallb (fun kv => is_canonical (snd kv)) m.

(* ================================================================== *)
(** ** The generator beside Python's [random] module

    The source imports [random].  To state that no draw reaches the
    generated turns, the generator is embedded a second time as a
    computation that may read and advance the state of that module. *)

(** The state of the [random] module as a caller meets it: the draws to
    come and how many were taken. *)
Record RandomState : Type := mkRandomState {
  upcoming : nat -> nat;
  drawn : nat
}.

Definition World (A : Type) : Type := RandomState -> result A * RandomState.

Definition pure_w {A} (m : result A) : World A := fun g => (m, g).

Definition bind_w {A B} (m : World A) (f : A -> World B) : World B :=
  fun g =>
    match m g with
    | (Ok a, g') => f a g'
    | (Raise e, g') => (Raise e, g')
    end.

Notation "x <~ m ;; k" := (bind_w m (fun x => k))
  (at level 61, m at next level, right associativity).

(** [random.choice(l)]: one draw; [IndexError] on an empty list. *)
Definition random_choice {A} (l : list A) : World A :=
  fun g =>
    match l with
    | [] => (Raise IndexError, g)
    | _ => (list_get l (upcoming g (drawn g) mod List.length l),
            mkRandomState (upcoming g) (S (drawn g)))
    end.

Fixpoint for_each_w {A S} (l : list A) (body : A -> S -> World S) (st : S)
  : World S :=
  match l with
  | [] => pure_w (Ok st)
  | i :: l' => st' <~ body i st ;; for_each_w l' body st'
  end.

(** One iteration of the main loop (source lines 171-207), statement by
    statement; no statement of it draws. *)
Definition main_turn_w (topic : string) (speakers : list string)
                       (additional_context : option AdditionalContext)
                       (i : nat) (turns : list Turn) : World (list Turn) :=
  question_speaker <~ pure_w (list_get speakers 0) ;;
  qi <~ pure_w (py_mod i (List.length content_prompts)) ;;
  question <~ pure_w (list_get content_prompts qi) ;;
  let turns := append turns (mkTurn question_speaker question) in
  ri <~ pure_w (py_mod 1 (List.length speakers)) ;;
  response_speaker <~ pure_w (list_get speakers ri) ;;
  ii <~ pure_w (py_mod i (List.length responses)) ;;
  response_intro <~ pure_w (list_get responses ii) ;;
  response_text <~
    match additional_context with
    | Some c =>
        if context_truthy c then
          match key_points c with
          | Some kp =>
              pi <~ pure_w (py_mod i (List.length kp)) ;;
              point <~ pure_w (list_get kp pi) ;;
              pure_w (Ok (response_intro ++ " When it comes to " ++ point
                          ++ " in " ++ topic
                          ++ ", we're seeing significant developments."))
          | None =>
              pure_w (Ok (response_intro ++ " " ++ topic
                          ++ " has many dimensions we need to consider."))
          end
        else pure_w (Ok (response_intro ++ " " ++ topic
                         ++ " has many dimensions we need to consider."))
    | None => pure_w (Ok (response_intro ++ " " ++ topic
                          ++ " has many dimensions we need to consider."))
    end ;;
  let turns := append turns (mkTurn response_speaker response_text) in
  if ((2 <? List.length speakers) && (i mod 3 =? 0))%nat then
    xi <~ pure_w (py_mod 2 (List.length speakers)) ;;
    reaction_speaker <~ pure_w (list_get speakers xi) ;;
    ci <~ pure_w (py_mod i (List.length reactions)) ;;
    reaction <~ pure_w (list_get reactions ci) ;;
    pure_w (Ok (append turns (mkTurn reaction_speaker reaction)))
  else pure_w (Ok turns).

(** [generate_dialogue_turns] as a computation beside the [random]
    module: opening, main loop, closing. *)
Definition generate_dialogue_turns_w (topic format_type : string)
    (duration_minutes : Z) (additional_context : option AdditionalContext)
  : World (list Turn) :=
  let format_info := format_lookup format_type in
  let speakers := speakers format_info in
  let num_turns := (duration_minutes * 2)%Z in
  turns <~ pure_w (opening topic format_type speakers []) ;;
  turns <~ for_each_w
             (range (Z.min (num_turns - 4) (Z.of_nat (List.length content_prompts))))
             (main_turn_w topic speakers additional_context) turns ;;
  pure_w (closing topic speakers turns).

(** The turns of iteration [i] as the design describes them: the prompt,
    the response intro, the key point and the reaction are the entries of
    their pools at index [i] modulo the size of the pool. *)
Definition iteration_turns (topic : string) (sp : list string)
    (ctx : option AdditionalContext) (i : nat) : list Turn :=
  let generic := " " ++ topic ++ " has many dimensions we need to consider." in
  let filler :=
    match ctx with
    | Some c =>
        match key_points c with
        | Some kp =>
            " When it comes to " ++ nth (i mod List.length kp) kp ""
            ++ " in " ++ topic ++ ", we're seeing significant developments."
        | None => generic
        end
    | None => generic
    end in
  ([ mkTurn (nth 0 sp "")
            (nth (i mod List.length content_prompts) content_prompts "");
     mkTurn (nth (1 mod List.length sp) sp "")
            (nth (i mod List.length responses) responses "" ++ filler) ]
   ++ (if ((2 <? List.length sp) && (i mod 3 =? 0))%nat
       then [ mkTurn (nth (2 mod List.length sp) sp "")
                     (nth (i mod List.length reactions) reactions "") ]
       else []))%list.

(** The key points a context carries, if any. *)
Definition key_points_of (ctx : option AdditionalContext)
  : option (list string) :=
  match ctx with
  | Some c => key_points c
  | None => None
  end.

(* ================================================================== *)
(** ** Strings: trimming *)

Section Trimming.

Lemma lstrip_first_ok s : first_ok s = true -> lstrip s = s.
Proof.
  destruct s as [|c s]; simpl; [discriminate|].
  intros H. apply negb_true_iff in H. now rewrite H.
Qed.

Lemma last_ok_truthy s : last_ok s = true -> truthy s = true.
Proof. destruct s; simpl; congruence. Qed.

Lemma rstrip_last_ok s : last_ok s = true -> rstrip s = s.
Proof.
  induction s as [|c s IH]; simpl; [discriminate|].
  destruct s as [|d s].
  - intros H. apply negb_true_iff in H. simpl. now rewrite H.
  - intros H. rewrite (IH H). simpl. now rewrite andb_false_r.
Qed.

Lemma strip_fixed s : first_ok s = true -> last_ok s = true -> strip s = s.
Proof.
  intros Hf Hl. unfold strip. rewrite (lstrip_first_ok _ Hf).
  now apply rstrip_last_ok.
Qed.

Lemma first_ok_app a b : first_ok a = true -> first_ok (a ++ b) = true.
Proof. destruct a; simpl; congruence. Qed.

Lemma last_ok_app a b : last_ok b = true -> last_ok (a ++ b) = true.
Proof.
  intros H. induction a as [|c a IH]; simpl; [assumption|].
  destruct (a ++ b) eqn:E; [discriminate IH | assumption].
Qed.

Lemma no_lf_app a b : no_lf (a ++ b) = no_lf a && no_lf b.
Proof.
  induction a as [|c a IH]; simpl; [reflexivity|].
  now rewrite IH, andb_assoc.
Qed.

(** A text built around an inserted fragment is line-safe as soon as
    its fixed ends are and the fragment holds no line feed. *)
Lemma line_safe_wrap pre mid post :
  no_lf pre = true -> first_ok pre = true ->
  no_lf post = true -> last_ok post = true ->
  no_lf mid = true ->
  line_safe (pre ++ mid ++ post) = true.
Proof.
  intros Hp Hf Hq Hl Hm. unfold line_safe.
  rewrite !no_lf_app, Hp, Hm, Hq. simpl.
  rewrite (first_ok_app _ _ Hf).
  rewrite (last_ok_app pre _ (last_ok_app mid _ Hl)). reflexivity.
Qed.

Lemma line_safe_strip s : line_safe s = true -> strip s = s.
Proof.
  unfold line_safe. intros H.
  apply andb_true_iff in H as [H Hl]. apply andb_true_iff in H as [_ Hf].
  now apply strip_fixed.
Qed.

Lemma line_safe_truthy s : line_safe s = true -> truthy s = true.
Proof.
  unfold line_safe. intros H. apply andb_true_iff in H as [_ Hl].
  now apply last_ok_truthy.
Qed.

Lemma contains_LF s : contains LF s = negb (no_lf s).
Proof.
  induction s as [|c s IH]; simpl; [reflexivity|].
  rewrite IH. destruct (Ascii.eqb c LF_char); [now destruct s | reflexivity].
Qed.

Lemma rstrip_keeps_head c s :
  is_space c = false -> rstrip (String c s) = String c (rstrip s).
Proof. intros H. simpl. now rewrite H. Qed.

End Trimming.

(* ================================================================== *)
(** ** Strings: splitting and joining *)

Section Splitting.

Lemma split_LF_step a s :
  split LF (String a s) =
  if Ascii.eqb a LF_char then "" :: split LF s
  else cons_head a (split LF s).
Proof.
  unfold split. simpl. rewrite andb_true_r. reflexivity.
Qed.

Lemma split_LF_one_line s : no_lf s = true -> split LF s = [s].
Proof.
  induction s as [|c s IH]; [reflexivity|].
  simpl. intros H. apply andb_true_iff in H as [Hc Hs].
  rewrite split_LF_step. apply negb_true_iff in Hc. rewrite Hc.
  now rewrite (IH Hs).
Qed.

Lemma split_LF_app a r :
  no_lf a = true -> split LF (a ++ LF ++ r) = a :: split LF r.
Proof.
  induction a as [|c a IH]; simpl; intros H.
  - now rewrite split_LF_step.
  - apply andb_true_iff in H as [Hc Ha]. apply negb_true_iff in Hc.
    rewrite split_LF_step, Hc. simpl in IH. now rewrite (IH Ha).
Qed.

Lemma join_cons2 sep x y l :
  join sep (x :: y :: l) = x ++ sep ++ join sep (y :: l).
Proof. reflexivity. Qed.

(** Splitting a joined list of one-line strings gives the list back. *)
Lemma split_join_LF l :
  l <> [] -> forallb no_lf l = true -> split LF (join LF l) = l.
Proof.
  induction l as [|x l IH]; [congruence|].
  intros _ H. simpl in H. apply andb_true_iff in H as [Hx Hl].
  destruct l as [|y l].
  - simpl. now apply split_LF_one_line.
  - rewrite join_cons2, split_LF_app by assumption.
    f_equal. apply IH; [discriminate | assumption].
Qed.

(** No line of a split script holds a line feed. *)
Lemma split_LF_lines s : forallb no_lf (split LF s) = true.
Proof.
  induction s as [|c s IH]; [reflexivity|].
  rewrite split_LF_step. destruct (Ascii.eqb c LF_char) eqn:E.
  - simpl. exact IH.
  - destruct (split LF s) as [|x xs]; simpl in *; [now rewrite E|].
    now rewrite E.
Qed.

Lemma split_go_exhausted sep s : split_go sep (Some 0) 0 s = [s].
Proof.
  induction s as [|c s IH]; [reflexivity|].
  simpl. now rewrite IH.
Qed.

Lemma first_ok_join x l : first_ok x = true -> first_ok (join LF (x :: l)) = true.
Proof.
  intros H. destruct l; [assumption|].
  rewrite join_cons2. now apply first_ok_app.
Qed.

Lemma last_ok_join l :
  l <> [] -> forallb last_ok l = true -> last_ok (join LF l) = true.
Proof.
  induction l as [|x l IH]; [congruence|].
  intros _ H. simpl in H. apply andb_true_iff in H as [Hx Hl].
  destruct l as [|y l]; [assumption|].
  rewrite join_cons2. apply last_ok_app, last_ok_app.
  apply IH; [discriminate | assumption].
Qed.

End Splitting.

(* ================================================================== *)
(** ** The parser on canonical pipe lines *)

Section PipeLines.

Lemma canonical_cases s :
  is_canonical s = true -> s = "R" \/ s = "S" \/ s = "T" \/ s = "U".
Proof.
  unfold is_canonical, list_mem, google_ids. simpl.
  intros H. repeat (apply orb_true_iff in H as [H|H]);
    try (apply String.eqb_eq in H; auto); discriminate.
Qed.

Lemma parse_line_appends line turns :
  parse_line line turns = (turns ++ parse_line line [])%list.
Proof.
  unfold parse_line, pipe_tier, colon_tier, append.
  repeat match goal with
         | |- context [if ?b then _ else _] => destruct b
         | |- context [match ?x with Some _ => _ | None => _ end] => destruct x
         end; simpl; now rewrite ?app_nil_r.
Qed.

Lemma parse_lines_flat lines : forall acc,
  fold_left (fun turns line => parse_line line turns) lines acc =
  (acc ++ flat_map (fun line => parse_line line []) lines)%list.
Proof.
  induction lines as [|l lines IH]; intros acc; simpl.
  - now rewrite app_nil_r.
  - rewrite IH, (parse_line_appends l acc), <- app_assoc. reflexivity.
Qed.

Lemma turn_line_parts t :
  turn_ok t = true ->
  no_lf (turn_line t) = true /\ first_ok (turn_line t) = true
  /\ last_ok (turn_line t) = true /\ parse_line (turn_line t) [] = [t].
Proof.
  destruct t as [sp tx]. unfold turn_ok, turn_line. simpl.
  intros H. apply andb_true_iff in H as [Hsp Htx].
  pose proof (line_safe_strip _ Htx) as Hstrip.
  pose proof (line_safe_truthy _ Htx) as Htr.
  unfold line_safe in Htx.
  apply andb_true_iff in Htx as [Htx Hl]. apply andb_true_iff in Htx as [Hn Hf].
  assert (Hlast : forall a, last_ok (String a (String "|" tx)) = true).
  { intros a. apply (last_ok_app (String a "|") tx Hl). }
  apply canonical_cases in Hsp as [-> | [-> | [-> | ->]]];
    (split; [simpl; exact Hn|]); (split; [reflexivity|]);
    (split; [apply Hlast|]);
    unfold parse_line; rewrite strip_fixed by (reflexivity || apply Hlast);
    simpl; unfold pipe_tier, split_max; simpl;
    rewrite split_go_exhausted; simpl; rewrite Hstrip, Htr; reflexivity.
Qed.

(** Parsing the sample script of well-formed turns gives the turns
    back. *)
Lemma parse_sample_script turns :
  forallb turn_ok turns = true ->
  parse_google_script (sample_script turns) = turns.
Proof.
  intros H. destruct turns as [|t0 turns]; [reflexivity|].
  assert (Hall : forall t, In t (t0 :: turns) -> turn_ok t = true)
    by (apply forallb_forall; assumption).
  set (ts := t0 :: turns) in *.
  assert (Hne : map turn_line ts <> []) by discriminate.
  assert (Hnolf : forallb no_lf (map turn_line ts) = true).
  { apply forallb_forall. intros l Hl. apply in_map_iff in Hl as [t [<- Ht]].
    apply turn_line_parts. auto. }
  assert (Hlast : forallb last_ok (map turn_line ts) = true).
  { apply forallb_forall. intros l Hl. apply in_map_iff in Hl as [t [<- Ht]].
    apply turn_line_parts. auto. }
  assert (Hstrip : strip (sample_script ts) = sample_script ts).
  { apply strip_fixed.
    - apply first_ok_join. apply turn_line_parts. apply Hall. now left.
    - now apply last_ok_join. }
  assert (Hflat : flat_map (fun line => parse_line line []) (map turn_line ts) = ts).
  { clear -Hall. induction ts as [|t ts IH]; [reflexivity|].
    simpl. rewrite (proj2 (proj2 (proj2 (turn_line_parts t (Hall t (or_introl eq_refl)))))).
    simpl. f_equal. apply IH. intros t' Ht'. apply Hall. now right. }
  assert (Hfold : fold_left (fun turns line => parse_line line turns)
                    (split LF (sample_script ts)) [] = ts).
  { unfold sample_script. rewrite split_join_LF by assumption.
    rewrite parse_lines_flat. exact Hflat. }
  unfold parse_google_script. rewrite Hstrip, Hfold. reflexivity.
Qed.

End PipeLines.

(* ================================================================== *)
(** ** The generator *)

Section ErrorMonad.

Lemma bind_ok {A B} (a : A) (f : A -> result B) : bind (Ok a) f = f a.
Proof. reflexivity. Qed.

Lemma list_get_head {A} (x : A) l : list_get (x :: l) 0 = Ok x.
Proof. reflexivity. Qed.

Lemma list_get_second {A} (x y : A) l : list_get (x :: y :: l) 1 = Ok y.
Proof. reflexivity. Qed.

(** [l[i % len(l)]] on a non-empty list: some element of the list. *)
Lemma pick_ok {A} (l : list A) (i : nat) :
  l <> [] ->
  exists x, In x l /\
    forall B (k : A -> result B),
      bind (py_mod i (List.length l)) (fun j => bind (list_get l j) k) = k x.
Proof.
  intros Hne.
  assert (Hlen : List.length l <> 0) by (destruct l; simpl; congruence).
  assert (Hlt : i mod List.length l < List.length l)
    by (apply Nat.mod_upper_bound; assumption).
  destruct (nth_error l (i mod List.length l)) as [x|] eqn:E.
  - exists x. split; [eapply nth_error_In; eassumption|].
    intros B k. unfold py_mod.
    destruct (List.length l) eqn:El; [congruence|].
    cbv iota. rewrite bind_ok. unfold list_get. rewrite E. reflexivity.
  - apply nth_error_None in E. lia.
Qed.

End ErrorMonad.

Section MainLoop.

Variable topic : string.
Variable sp : list string.
Variable ctx : option AdditionalContext.
Hypothesis sp_nonempty : sp <> [].

Lemma main_turn_appends i turns :
  main_turn topic sp ctx i turns =
  (new <- main_turn topic sp ctx i [] ;; Ok (turns ++ new)%list).
Proof.
  unfold main_turn, bind, append.
  repeat (match goal with
          | |- context [match list_get ?l ?j with Ok _ => _ | Raise _ => _ end] =>
              destruct (list_get l j)
          | |- context [match py_mod ?a ?b with Ok _ => _ | Raise _ => _ end] =>
              destruct (py_mod a b)
          | |- context [match ?x with Some _ => _ | None => _ end] =>
              destruct x
          | |- context [if ?b then _ else _] => destruct b
          end; cbv beta iota);
    rewrite <- ?app_assoc; reflexivity.
Qed.

Lemma for_each_main_appends l : forall turns,
  for_each l (main_turn topic sp ctx) turns =
  (new <- for_each l (main_turn topic sp ctx) [] ;; Ok (turns ++ new)%list).
Proof.
  induction l as [|i l IH]; intros turns; simpl.
  - now rewrite app_nil_r.
  - rewrite (main_turn_appends i turns).
    destruct (main_turn topic sp ctx i []) as [new|e]; simpl; [|reflexivity].
    rewrite (IH (turns ++ new)%list), (IH new).
    destruct (for_each l (main_turn topic sp ctx) []); simpl;
      [now rewrite app_assoc | reflexivity].
Qed.

Lemma prompts_safe : forallb line_safe content_prompts = true.
Proof. reflexivity. Qed.

Lemma reactions_safe : forallb line_safe reactions = true.
Proof. reflexivity. Qed.

Lemma responses_safe :
  forallb (fun s => no_lf s && first_ok s) responses = true.
Proof. reflexivity. Qed.

Lemma response_generic_safe intro :
  In intro responses -> no_lf topic = true ->
  line_safe (intro ++ " " ++ topic
             ++ " has many dimensions we need to consider.") = true.
Proof.
  intros Hin Ht.
  pose proof (proj1 (forallb_forall _ _) responses_safe _ Hin) as H.
  apply andb_true_iff in H as [Hn Hf].
  assert (Hl : last_ok (intro ++ " " ++ topic
                        ++ " has many dimensions we need to consider.") = true)
    by (do 3 apply last_ok_app; reflexivity).
  unfold line_safe. rewrite Hl, !no_lf_app, Hn, Ht, (first_ok_app _ _ Hf).
  reflexivity.
Qed.

Lemma response_point_safe intro point :
  In intro responses -> no_lf topic = true -> no_lf point = true ->
  line_safe (intro ++ " When it comes to " ++ point ++ " in " ++ topic
             ++ ", we're seeing significant developments.") = true.
Proof.
  intros Hin Ht Hp.
  pose proof (proj1 (forallb_forall _ _) responses_safe _ Hin) as H.
  apply andb_true_iff in H as [Hn Hf].
  assert (Hl : last_ok (intro ++ " When it comes to " ++ point ++ " in "
                        ++ topic
                        ++ ", we're seeing significant developments.") = true)
    by (do 5 apply last_ok_app; reflexivity).
  unfold line_safe. rewrite Hl, !no_lf_app, Hn, Ht, Hp, (first_ok_app _ _ Hf).
  reflexivity.
Qed.

(** One iteration returns, when [key_points] can be indexed, and every
    turn it appends is spoken by a member of the speaker list. *)
Lemma main_turn_returns i :
  key_points_indexable ctx = true ->
  exists new, main_turn topic sp ctx i [] = Ok new
              /\ Forall (generated_ok topic sp ctx) new.
Proof.
  intros Hkp.
  assert (H0 : exists s0, list_get sp 0 = Ok s0 /\ In s0 sp).
  { destruct sp as [|s0 rest]; [congruence|].
    exists s0. split; [reflexivity | now left]. }
  destruct H0 as [s0 [Es0 Hs0]].
  destruct (pick_ok content_prompts i ltac:(discriminate)) as [q [Hq Eq]].
  destruct (pick_ok sp 1 sp_nonempty) as [s1 [Hs1 Es1]].
  destruct (pick_ok responses i ltac:(discriminate)) as [intro [Hi Ei]].
  destruct (pick_ok sp 2 sp_nonempty) as [s2 [Hs2 Es2]].
  destruct (pick_ok reactions i ltac:(discriminate)) as [re [Hre Ere]].
  assert (Hq' : line_safe q = true)
    by (apply (proj1 (forallb_forall _ _) prompts_safe); assumption).
  assert (Hre' : line_safe re = true)
    by (apply (proj1 (forallb_forall _ _) reactions_safe); assumption).
  assert (Hresp : exists txt,
    (match ctx with
     | Some c =>
         if context_truthy c then
           match key_points c with
           | Some kp =>
               pi <- py_mod i (List.length kp) ;;
               point <- list_get kp pi ;;
               Ok (intro ++ " When it comes to " ++ point ++ " in "
                   ++ topic ++ ", we're seeing significant developments.")
           | None =>
               Ok (intro ++ " " ++ topic
                   ++ " has many dimensions we need to consider.")
           end
         else Ok (intro ++ " " ++ topic
                  ++ " has many dimensions we need to consider.")
     | None => Ok (intro ++ " " ++ topic
                   ++ " has many dimensions we need to consider.")
     end) = Ok txt
    /\ (no_lf topic = true -> key_points_one_line ctx = true ->
        line_safe txt = true)).
  { destruct ctx as [c|]; simpl in *.
    2:{ eexists; split; [reflexivity|].
        intros; now apply response_generic_safe. }
    destruct (context_truthy c).
    2:{ eexists; split; [reflexivity|].
        intros; now apply response_generic_safe. }
    destruct (key_points c) as [kp|].
    2:{ eexists; split; [reflexivity|].
        intros; now apply response_generic_safe. }
    destruct kp as [|k kp]; [discriminate|].
    destruct (pick_ok (k :: kp) i ltac:(discriminate)) as [pt [Hpt Ept]].
    rewrite Ept. eexists; split; [reflexivity|].
    intros Ht Hone. apply response_point_safe; try assumption.
    apply (proj1 (forallb_forall _ _) Hone). assumption. }
  destruct Hresp as [txt [Etxt Htxt]].
  unfold main_turn. rewrite Es0, bind_ok.
  rewrite Eq, Es1, Ei, Etxt, bind_ok.
  destruct ((2 <? List.length sp) && (i mod 3 =? 0))%nat.
  - rewrite Es2, Ere. eexists; split; [reflexivity|].
    unfold append; simpl.
    repeat constructor; simpl; auto.
  - eexists; split; [reflexivity|].
    unfold append; simpl.
    repeat constructor; simpl; auto.
Qed.

Lemma for_each_main_returns l :
  key_points_indexable ctx = true ->
  exists new, for_each l (main_turn topic sp ctx) [] = Ok new
              /\ Forall (generated_ok topic sp ctx) new.
Proof.
  intros Hkp. induction l as [|i l [news [E H]]]; simpl.
  - exists []. split; [reflexivity | constructor].
  - destruct (main_turn_returns i Hkp) as [new [En Hn]].
    rewrite En, bind_ok, for_each_main_appends, E, bind_ok.
    exists (new ++ news)%list. split; [reflexivity|].
    apply Forall_app; split; assumption.
Qed.

End MainLoop.

Section WholeGenerator.

Variable topic : string.
Variable ctx : option AdditionalContext.

(** The three speaker lists of the catalog. *)
Lemma speakers_cases f :
  speakers (format_lookup f) = ["R"; "S"]
  \/ speakers (format_lookup f) = ["R"; "S"; "T"; "U"]
  \/ speakers (format_lookup f) = ["R"; "S"; "T"].
Proof.
  unfold format_lookup, PODCAST_FORMATS, dict_get.
  repeat match goal with
         | |- context [String.eqb f ?n] => destruct (String.eqb f n)
         end; simpl; auto.
Qed.

Lemma speakers_nonempty f : speakers (format_lookup f) <> [].
Proof.
  destruct (speakers_cases f) as [E | [E | E]]; rewrite E; discriminate.
Qed.

Lemma speakers_canonical f s :
  In s (speakers (format_lookup f)) -> is_canonical s = true.
Proof.
  destruct (speakers_cases f) as [E | [E | E]]; rewrite E; simpl;
    intuition (subst; reflexivity).
Qed.

Lemma wrap_topic_safe pre post :
  no_lf pre = true -> first_ok pre = true ->
  no_lf post = true -> last_ok post = true ->
  no_lf topic = true -> key_points_one_line ctx = true ->
  line_safe (pre ++ topic ++ post) = true.
Proof. intros; now apply line_safe_wrap. Qed.

Ltac generated :=
  repeat (apply Forall_cons || apply Forall_nil);
  (split;
   [ cbn [speaker]; simpl; auto 6
   | cbn [text]; intros;
     first [ reflexivity
           | apply wrap_topic_safe; (reflexivity || assumption) ] ]).

Lemma opening_returns f :
  let sp := speakers (format_lookup f) in
  exists o, opening topic f sp [] = Ok o
            /\ 2 <= List.length o
            /\ Forall (generated_ok topic sp ctx) o.
Proof.
  intros sp. subst sp. unfold opening.
  destruct (String.eqb_spec f "interview") as [-> | Hi].
  { eexists. split; [reflexivity|]. split; [simpl; lia|].
    unfold generated_ok, append. generated. }
  destruct (String.eqb_spec f "debate") as [-> | Hd].
  { eexists. split; [reflexivity|]. split; [simpl; lia|].
    unfold generated_ok, append. generated. }
  destruct (speakers_cases f) as [E | [E | E]]; rewrite E;
    (eexists; split; [reflexivity|]; split; [simpl; lia|];
     unfold generated_ok, append; generated).
Qed.

Lemma closing_returns f turns :
  let sp := speakers (format_lookup f) in
  exists cl, closing topic sp turns = Ok (turns ++ cl)%list
             /\ List.length cl = 3
             /\ Forall (generated_ok topic sp ctx) cl.
Proof.
  intros sp. subst sp. unfold closing.
  destruct (speakers_cases f) as [E | [E | E]]; rewrite E;
    (eexists; split;
     [cbn [bind list_get nth_error List.length Nat.ltb Nat.leb];
      unfold append; rewrite <- !app_assoc; reflexivity|];
     split; [reflexivity|];
     unfold generated_ok; generated).
Qed.

(** The generator returns whenever [key_points] can be indexed; the
    result has at least four turns, all spoken by members of the
    template's speaker list, and all line-safe when the topic and the
    key points hold no line feed. *)
Lemma generate_returns f d :
  key_points_indexable ctx = true ->
  exists turns,
    generate_dialogue_turns topic f d ctx = Ok turns
    /\ 4 <= List.length turns
    /\ Forall (fun t => In (speaker t) (speakers (format_lookup f))) turns
    /\ (no_lf topic = true -> key_points_one_line ctx = true ->
        forallb turn_ok turns = true).
Proof.
  intros Hkp. unfold generate_dialogue_turns.
  set (sp := speakers (format_lookup f)).
  destruct (opening_returns f) as [o [Eo [Lo Ho]]]. fold sp in Eo, Ho.
  rewrite Eo, bind_ok.
  set (l := range _).
  destruct (for_each_main_returns topic sp ctx (speakers_nonempty f) l Hkp)
    as [news [En Hn]].
  rewrite for_each_main_appends, En, !bind_ok.
  destruct (closing_returns f (o ++ news)%list) as [cl [Ec [Lc Hc]]].
  fold sp in Ec, Hc. rewrite Ec.
  assert (Hall : Forall (generated_ok topic sp ctx) ((o ++ news) ++ cl)%list)
    by (repeat (apply Forall_app; split); assumption).
  eexists. split; [reflexivity|]. split; [|split].
  - rewrite !length_app. lia.
  - eapply Forall_impl; [|exact Hall]. intros t [Ht _]. exact Ht.
  - intros Hnl Hone. apply forallb_forall. intros t Ht.
    pose proof (proj1 (Forall_forall _ _) Hall t Ht) as [Hs Hl].
    unfold turn_ok. rewrite (speakers_canonical f _ Hs), (Hl Hnl Hone).
    reflexivity.
Qed.

End WholeGenerator.

(* ================================================================== *)
(** ** The colon tier *)

Section ColonTier.

Lemma take_all s : take (String.length s) s = s.
Proof.
  unfold take. induction s as [|c s IH]; [reflexivity|].
  simpl. now rewrite IH.
Qed.

(** A greedy [.*] runs to the end of a one-line string when the rest of
    the pattern accepts there. *)
Lemma dot_star_to_end s : forall pos g (k : cont) r,
  no_lf s = true ->
  k (pos + String.length s) "" g = Some r ->
  star_greedy [IDot] pos s g k = Some r.
Proof.
  induction s as [|c s IH]; intros pos g k r Hn Hk; simpl in *.
  - now rewrite Nat.add_0_r in Hk.
  - apply andb_true_iff in Hn as [Hc Hs].
    rewrite Hc. simpl.
    rewrite (IH (S pos) g k r Hs); [reflexivity|].
    now rewrite <- Nat.add_succ_comm in Hk.
Qed.

(** [(.+)$] on a one-line string: the whole string, if not empty. *)
Lemma text_cont_spec pos s g :
  no_lf s = true ->
  text_cont pos s g = if truthy s then Some ((2, s) :: g) else None.
Proof.
  intros Hn. unfold text_cont. destruct s as [|c s]; [reflexivity|].
  simpl in Hn. apply andb_true_iff in Hn as [Hc Hs].
  cbn [rmatch truthy star]. cbn [cset_mem existsb citem_mem].
  rewrite Hc. cbn [orb].
  apply dot_star_to_end; [assumption|].
  cbn [String.eqb orb].
  replace (S pos + String.length s - pos) with (String.length (String c s))
    by (cbn [String.length]; lia).
  now rewrite take_all.
Qed.

(** [\s*(.+)$] after the colon: a match exists exactly when something
    follows the colon, and the captured text, once stripped, is the
    stripped remainder. *)
Lemma colon_rest r : forall pos g,
  no_lf r = true ->
  match star_greedy [ISpace] pos r g text_cont with
  | Some m => truthy r = true
              /\ strip (group m 2) = strip r
              /\ group m 1 = group g 1
  | None => r = ""
  end.
Proof.
  induction r as [|c r IH]; intros pos g Hn.
  - reflexivity.
  - pose proof Hn as Hn'. simpl in Hn'.
    apply andb_true_iff in Hn' as [_ Hr].
    cbn [star_greedy cset_mem existsb]. cbn [citem_mem]. rewrite orb_false_r.
    destruct (is_space c) eqn:Ec.
    + specialize (IH (S pos) g Hr).
      destruct (star_greedy [ISpace] (S pos) r g text_cont) as [m|].
      * cbn [orelse]. destruct IH as [_ [H2 H1]].
        repeat split; try assumption.
        rewrite H2. unfold strip. simpl. now rewrite Ec.
      * subst r. cbn [orelse]. rewrite text_cont_spec by assumption.
        cbn [truthy]. repeat split.
    + rewrite text_cont_spec by assumption. cbn [truthy].
      repeat split.
  Qed.

Lemma canonical_letter c :
  is_canonical (String c "") =
  cset_mem c [ILit "R"; ILit "S"; ILit "T"; ILit "U"].
Proof.
  unfold is_canonical, list_mem, google_ids.
  cbn [existsb cset_mem citem_mem String.eqb].
  repeat match goal with
         | |- context [Ascii.eqb c ?x] => destruct (Ascii.eqb c x)
         end; reflexivity.
Qed.

(** The pattern of the colon tier, read off the matcher. *)
Lemma colon_re_shape s :
  re_match colon_re s =
  match s with
  | String c (String d r) =>
      if is_canonical (String c "") && Ascii.eqb d ":"
      then star_greedy [ISpace] 2 r [(1, String c "")] text_cont
      else None
  | _ => None
  end.
Proof.
  destruct s as [|c [|d r]]; unfold re_match, colon_re.
  - reflexivity.
  - cbn. destruct (_ || _); reflexivity.
  - rewrite canonical_letter. cbn [seq_of rmatch Nat.eqb].
    destruct (cset_mem c _); [|reflexivity].
    cbn [andb cset_mem existsb citem_mem]. rewrite orb_false_r.
    destruct (Ascii.eqb d ":"); reflexivity.
Qed.

(** The colon tier emits the turn of [letter_colon_text], or nothing. *)
Lemma colon_tier_spec l turns :
  no_lf l = true ->
  colon_tier l turns =
  match letter_colon_text l with
  | Some t => append turns t
  | None => turns
  end.
Proof.
  intros Hn. unfold colon_tier, letter_colon_text.
  rewrite colon_re_shape.
  destruct l as [|c [|d r]]; try reflexivity.
  destruct (is_canonical (String c "") && Ascii.eqb d ":"); [|reflexivity].
  assert (Hr : no_lf r = true).
  { simpl in Hn. apply andb_true_iff in Hn as [_ Hn].
    apply andb_true_iff in Hn as [_ Hn]. exact Hn. }
  pose proof (colon_rest r 2 [(1, String c "")] Hr) as H.
  destruct (star_greedy [ISpace] 2 r [(1, String c "")] text_cont) as [m|].
  - destruct H as [_ [H2 H1]]. rewrite H2, H1.
    destruct (truthy (strip r)); reflexivity.
  - subst r. reflexivity.
Qed.

End ColonTier.

(* ================================================================== *)
(** ** Speaker detection and assignment *)

Section Detection.

Lemma list_mem_In x l : list_mem x l = true <-> In x l.
Proof.
  unfold list_mem. rewrite existsb_exists. split.
  - intros [y [Hy E]]. apply String.eqb_eq in E. now subst.
  - intros H. exists x. split; [assumption | apply String.eqb_refl].
Qed.

Lemma list_mem_app x a b : list_mem x (a ++ b) = list_mem x a || list_mem x b.
Proof. unfold list_mem. apply existsb_app. Qed.

Lemma detect_line_adds line sp :
  detect_line line sp = fold_left add_label (detected_label line) sp.
Proof.
  unfold detect_line, detected_label, add_label.
  destruct (contains ":" line); [|reflexivity].
  destruct (re_match detect_re line) as [m|]; [|reflexivity].
  destruct (truthy (strip (group m 1))); [|reflexivity].
  simpl. destruct (list_mem (strip (group m 1)) sp); reflexivity.
Qed.

Lemma detect_lines_adds lines : forall sp,
  fold_left (fun speakers line => detect_line line speakers) lines sp =
  fold_left add_label (flat_map detected_label lines) sp.
Proof.
  induction lines as [|l lines IH]; intros sp; [reflexivity|].
  simpl. rewrite fold_left_app, IH, detect_line_adds. reflexivity.
Qed.

Lemma filter_filter {A} (f g : A -> bool) l :
  filter f (filter g l) = filter (fun x => g x && f x) l.
Proof.
  induction l as [|x l IH]; [reflexivity|].
  simpl. destruct (g x); simpl; [destruct (f x)|]; now rewrite IH.
Qed.

(** The accumulator of the detection loop: what it held, then the new
    labels in the order of their first appearance. *)
Lemma add_labels_first_appearance l : forall acc,
  fold_left add_label l acc =
  (acc ++ filter (fun y => negb (list_mem y acc)) (first_appearance l))%list.
Proof.
  induction l as [|x l IH]; intros acc; simpl.
  - now rewrite app_nil_r.
  - rewrite IH, filter_filter. unfold add_label.
    destruct (list_mem x acc) eqn:E; simpl.
    + f_equal. apply filter_ext_in. intros y _.
      destruct (String.eqb_spec y x) as [-> | Hne]; simpl.
      * now rewrite E.
      * reflexivity.
    + rewrite <- app_assoc. simpl. do 2 f_equal.
      apply filter_ext. intros y. rewrite list_mem_app.
      unfold list_mem at 2. simpl. rewrite orb_false_r, negb_orb.
      now rewrite andb_comm.
Qed.

Lemma detect_speakers_first_appearance script :
  detect_speakers script =
  first_appearance (flat_map detected_label (split LF script)).
Proof.
  unfold detect_speakers.
  rewrite detect_lines_adds, add_labels_first_appearance. simpl.
  induction (first_appearance _) as [|x l IH]; [reflexivity|].
  simpl. now rewrite IH.
Qed.

Lemma first_appearance_NoDup l : NoDup (first_appearance l).
Proof.
  induction l as [|x l IH]; simpl; constructor.
  - intros H. apply filter_In in H as [_ H].
    now rewrite String.eqb_refl in H.
  - now apply NoDup_filter.
Qed.

Lemma detect_speakers_NoDup script : NoDup (detect_speakers script).
Proof.
  rewrite detect_speakers_first_appearance. apply first_appearance_NoDup.
Qed.

Lemma dict_get_absent {V} (d : dict V) k :
  ~ In k (dict_keys d) -> dict_get d k = None.
Proof.
  induction d as [|[k' v] d IH]; simpl; [reflexivity|].
  intros H. destruct (String.eqb_spec k k') as [-> | Hne].
  - exfalso. apply H. now left.
  - apply IH. intros Hin. apply H. now right.
Qed.

Lemma dict_set_fresh {V} (d : dict V) k v :
  ~ In k (dict_keys d) -> dict_set d k v = (d ++ [(k, v)])%list.
Proof.
  induction d as [|[k' v'] d IH]; simpl; [reflexivity|].
  intros H. destruct (String.eqb_spec k k') as [-> | Hne].
  - exfalso. apply H. now left.
  - rewrite IH; [reflexivity|]. intros Hin. apply H. now right.
Qed.

Lemma google_id_at n :
  n < 4 ->
  exists id, list_get google_ids n = Ok id
             /\ skipn n google_ids = id :: skipn (S n) google_ids.
Proof.
  intros H. do 4 (destruct n as [|n]; [eexists; split; reflexivity|]). lia.
Qed.

Lemma assign_loop l : forall n m,
  n + List.length l <= 4 -> NoDup l ->
  (forall x, In x l -> ~ In x (dict_keys m)) ->
  for_each (combine (seq n (List.length l)) l)
           (fun ip m => id <- list_get google_ids (fst ip) ;;
                        Ok (dict_set m (snd ip) id)) m
  = Ok (m ++ combine l (skipn n google_ids))%list.
Proof.
  induction l as [|x l IH]; intros n m Hlen Hnd Hfresh; simpl.
  - now rewrite app_nil_r.
  - simpl in Hlen. destruct (google_id_at n ltac:(lia)) as [id [Eid Eskip]].
    rewrite Eid, !bind_ok, Eskip.
    rewrite dict_set_fresh by (apply Hfresh; now left).
    inversion Hnd as [|? ? Hx Hnd']; subst.
    rewrite IH; try assumption; try lia.
    + now rewrite <- app_assoc.
    + intros y Hy Hin. unfold dict_keys in Hin.
      rewrite map_app, in_app_iff in Hin. destruct Hin as [Hin | [<- | []]].
      * apply (Hfresh y); [now right | assumption].
      * contradiction.
Qed.

(** The assignment loop on distinct labels: the first four, paired in
    order with R, S, T, U. *)
Lemma assign_ids_spec labels :
  NoDup labels ->
  assign_ids labels [] = Ok (combine (firstn 4 labels) google_ids).
Proof.
  intros Hnd. unfold assign_ids, enumerate.
  rewrite assign_loop.
  - reflexivity.
  - rewrite length_firstn. lia.
  - rewrite <- (firstn_skipn 4 labels) in Hnd.
    now apply NoDup_app_remove_r in Hnd.
  - intros x _ [].
Qed.

Lemma NoDup_split_disjoint {A} (a b : list A) x :
  NoDup (a ++ b) -> In x b -> ~ In x a.
Proof.
  induction a as [|y a IH]; simpl; [tauto|].
  intros Hnd Hb [-> | Ha]; inversion Hnd; subst.
  - match goal with H : ~ In _ _ |- _ => apply H end.
    apply in_app_iff. now right.
  - now apply IH.
Qed.

Lemma convert_line_appends m line acc :
  convert_line m line acc = (acc ++ convert_line m line [])%list.
Proof.
  unfold convert_line, append_line.
  repeat match goal with
         | |- context [if ?b then _ else _] => destruct b
         | |- context [match ?x with Some _ => _ | None => _ end] =>
             destruct x
         end; simpl; now rewrite ?app_nil_r.
Qed.

End Detection.

(* ================================================================== *)
(** ** Claims on the generator *)

Section GeneratorClaims.

(** With [key_points] bound to the empty list, an iteration of the main
    loop divides by zero. *)
Lemma main_turn_empty_key_points topic sp other i turns :
  sp <> [] ->
  main_turn topic sp (Some (mkContext (Some []) other)) i turns
  = Raise ZeroDivisionError.
Proof.
  intros Hsp.
  assert (H0 : exists s0, list_get sp 0 = Ok s0)
    by (destruct sp as [|s0 rest]; [congruence | now exists s0]).
  destruct H0 as [s0 Es0].
  destruct (pick_ok content_prompts i ltac:(discriminate)) as [q [_ Eq]].
  destruct (pick_ok sp 1 Hsp) as [s1 [_ Es1]].
  destruct (pick_ok responses i ltac:(discriminate)) as [intro [_ Ei]].
  unfold main_turn. rewrite Es0, bind_ok, Eq, Es1, Ei. reflexivity.
Qed.

End GeneratorClaims.

(** C1 (the code departs from the claim).  The claim promises at least
    four turns for every catalog format and every duration of at least
    one minute.  For each of the six catalog formats, whatever the topic,
    a duration of three minutes and a context whose [key_points] is the
    empty list make the generator raise [ZeroDivisionError] instead of
    returning turns. *)
Theorem catalog_formats_abort_on_empty_key_points :
  Forall (fun f => forall topic,
            generate_dialogue_turns topic f 3
              (Some (mkContext (Some []) [])) = Raise ZeroDivisionError)
         (dict_keys PODCAST_FORMATS).
Proof.
  repeat constructor; intros topic; reflexivity.
Qed.

(** C3 (the code departs from the claim).  The claim says the generator
    never aborts and falls back to the generic phrase when [key_points]
    is empty.  With [key_points] present and bound to the empty list,
    every call of three minutes or more raises [ZeroDivisionError]: the
    first iteration of the main loop computes [i % 0]. *)
Theorem empty_key_points_raise_zero_division topic f d other :
  (3 <= d)%Z ->
  generate_dialogue_turns topic f d (Some (mkContext (Some []) other))
  = Raise ZeroDivisionError.
Proof.
  intros Hd. unfold generate_dialogue_turns.
  destruct (opening_returns topic None f) as [o [Eo _]].
  rewrite Eo, bind_ok. unfold range.
  change (Z.of_nat (List.length content_prompts)) with 10%Z.
  destruct (Z.to_nat (Z.min (d * 2 - 4) 10)) as [|n] eqn:En; [lia|].
  cbn [seq for_each].
  rewrite main_turn_empty_key_points by apply speakers_nonempty.
  reflexivity.
Qed.

Lemma empty_key_points_raise_zero_division_witness :
  generate_dialogue_turns "x" "dialogue" 3 (Some (mkContext (Some []) []))
  = Raise ZeroDivisionError.
Proof.
  apply (empty_key_points_raise_zero_division "x" "dialogue" 3 []). lia.
Defined.

(** C2, counterexample.  A topic holding a line feed: the generator
    returns five turns, the sample script breaks two of them over two
    lines, and the parser gives back other turns. *)
Lemma roundtrip_fails_on_line_feed :
  exists turns,
    generate_dialogue_turns ("a" ++ LF ++ "b") "dialogue" 1 None = Ok turns
    /\ parse_google_script (sample_script turns) <> turns.
Proof.
  eexists. split; [vm_compute; reflexivity|].
  vm_compute. intros H. discriminate H.
Qed.

(** C2, as amended.  For every topic without a line feed, every format
    name, every duration and every context whose [key_points], when
    present, is a non-empty list of strings without a line feed, the
    generator returns turns, and parsing their sample script (one line
    [speaker|text] per turn, joined by line feeds) gives exactly these
    turns back. *)
Theorem roundtrip_one_line_inputs topic f d ctx :
  contains LF topic = false ->
  key_points_indexable ctx = true ->
  key_points_one_line ctx = true ->
  exists turns,
    generate_dialogue_turns topic f d ctx = Ok turns
    /\ parse_google_script (sample_script turns) = turns.
Proof.
  intros Ht Hkp Hone.
  rewrite contains_LF in Ht. apply negb_false_iff in Ht.
  destruct (generate_returns topic ctx f d Hkp) as [turns [E [_ [_ Hok]]]].
  exists turns. split; [assumption|].
  apply parse_sample_script. now apply Hok.
Qed.

Lemma roundtrip_one_line_inputs_witness :
  exists turns,
    generate_dialogue_turns "space travel" "debate" 5
      (Some (mkContext (Some ["Mars"; "rockets"]) [("tone", "calm")]))
    = Ok turns
    /\ parse_google_script (sample_script turns) = turns.
Proof.
  apply (roundtrip_one_line_inputs "space travel" "debate" 5
           (Some (mkContext (Some ["Mars"; "rockets"]) [("tone", "calm")])));
    reflexivity.
Defined.

(** C8.  A format name that is no key of the catalog gives exactly the
    outcome of the name [dialogue], whatever the topic, the duration and
    the context: the unknown name is replaced by the default format and
    raises nothing of its own. *)
Theorem unknown_format_is_dialogue topic f d ctx :
  dict_has PODCAST_FORMATS f = false ->
  generate_dialogue_turns topic f d ctx
  = generate_dialogue_turns topic "dialogue" d ctx.
Proof.
  intros H. unfold generate_dialogue_turns, opening, format_lookup.
  unfold dict_has in H.
  destruct (dict_get PODCAST_FORMATS f) eqn:E; [discriminate|].
  assert (Hi : String.eqb f "interview" = false).
  { destruct (String.eqb_spec f "interview") as [-> |]; [discriminate E | reflexivity]. }
  assert (Hd : String.eqb f "debate" = false).
  { destruct (String.eqb_spec f "debate") as [-> |]; [discriminate E | reflexivity]. }
  rewrite Hi, Hd. reflexivity.
Qed.

Lemma unknown_format_is_dialogue_witness :
  generate_dialogue_turns "tea" "quiz" 4 None
  = generate_dialogue_turns "tea" "dialogue" 4 None.
Proof.
  apply (unknown_format_is_dialogue "tea" "quiz" 4 None). reflexivity.
Defined.


(* ================================================================== *)
(** ** Claims on the parser *)

Section ParserClaims.

Lemma no_lf_lstrip s : no_lf s = true -> no_lf (lstrip s) = true.
Proof.
  induction s as [|c s IH]; [reflexivity|].
  intros H. simpl. destruct (is_space c); [|assumption].
  simpl in H. apply andb_true_iff in H as [_ H]. now apply IH.
Qed.

Lemma no_lf_rstrip s : no_lf s = true -> no_lf (rstrip s) = true.
Proof.
  induction s as [|c s IH]; [reflexivity|].
  intros H. simpl in H. apply andb_true_iff in H as [Hc Hs].
  simpl. destruct (is_space c && negb (truthy (rstrip s))); [reflexivity|].
  simpl. now rewrite Hc, IH.
Qed.

Lemma no_lf_strip s : no_lf s = true -> no_lf (strip s) = true.
Proof. intros H. unfold strip. now apply no_lf_rstrip, no_lf_lstrip. Qed.

(** The per-line loop skips blank lines and comment lines. *)
Lemma parse_line_skips line turns :
  truthy (strip line) = false
  \/ startswith (strip line) "#" = true
  \/ startswith (strip line) "//" = true ->
  parse_line line turns = turns.
Proof.
  unfold parse_line. intros [H | [H | H]]; rewrite H; simpl;
    now rewrite ?orb_true_r.
Qed.

Lemma letter_colon_text_not_comment l :
  startswith l "#" = true \/ startswith l "//" = true ->
  letter_colon_text l = None.
Proof.
  destruct l as [|c [|d r]]; try reflexivity.
  unfold letter_colon_text. rewrite canonical_letter.
  cbn [startswith cset_mem existsb citem_mem].
  intros [H | H].
  - rewrite andb_true_r in H. apply Ascii.eqb_eq in H. subst c. reflexivity.
  - apply andb_true_iff in H as [H _]. apply Ascii.eqb_eq in H. subst c.
    reflexivity.
Qed.

End ParserClaims.

(** C4 (the code departs from the claim).  The claim keeps comment lines
    out of every tier, the paragraph fallback included.  The fallback
    splits the raw script: a script that is one comment line comes back
    as a turn of speaker R whose text is the comment, and a comment
    paragraph before a plain one is spoken by R, the plain one by S. *)
Theorem comment_lines_reach_paragraph_fallback :
  parse_google_script "# note" = [mkTurn "R" "# note"]
  /\ parse_google_script ("// todo" ++ LF ++ LF ++ "Hello there")
     = [mkTurn "R" "// todo"; mkTurn "S" "Hello there"].
Proof. split; reflexivity. Qed.

(** C7, counterexample.  The line [R:Hi] has no pipe, has a colon, and
    no whitespace follows the colon; the parser emits the turn (R, Hi)
    all the same. *)
Lemma colon_without_space_emits :
  parse_google_script "R:Hi" = [mkTurn "R" "Hi"]
  /\ parse_line "R:Hi" [] = [mkTurn "R" "Hi"]
  /\ contains "|" "R:Hi" = false
  /\ contains ":" "R:Hi" = true
  /\ letter_colon_space "R:Hi" = false.
Proof. repeat split; reflexivity. Qed.

(** C7, as amended.  On a line without a pipe and with a colon, the loop
    body emits a turn if and only if the trimmed line is one of the
    letters R, S, T, U, then a colon, then a remainder that is not blank;
    whitespace between the colon and the text is optional.  The turn is
    then that letter with the trimmed remainder; any other colon line
    leaves the turns as they were. *)
Theorem colon_tier_anchoring line turns :
  contains LF line = false ->
  contains "|" (strip line) = false ->
  contains ":" (strip line) = true ->
  parse_line line turns
  = match letter_colon_text (strip line) with
    | Some t => (turns ++ [t])%list
    | None => turns
    end
  /\ (parse_line line turns <> turns <->
      exists c r, strip line = String c (String ":" r)
                  /\ is_canonical (String c "") = true
                  /\ strip r <> "").
Proof.
  intros Hlf Hpipe Hcolon.
  rewrite contains_LF in Hlf. apply negb_false_iff in Hlf.
  pose proof (no_lf_strip _ Hlf) as Hn.
  assert (Heq : parse_line line turns
                = match letter_colon_text (strip line) with
                  | Some t => (turns ++ [t])%list
                  | None => turns
                  end).
  { destruct (truthy (strip line)) eqn:Etr.
    2:{ destruct (strip line); [discriminate Hcolon | discriminate Etr]. }
    destruct (startswith (strip line) "#" || startswith (strip line) "//")
      eqn:Ecom.
    - apply orb_true_iff in Ecom.
      rewrite parse_line_skips by auto.
      now rewrite letter_colon_text_not_comment.
    - unfold parse_line. rewrite Etr. simpl negb. rewrite orb_false_l.
      rewrite Ecom, Hpipe, Hcolon. now apply colon_tier_spec. }
  split; [exact Heq|].
  rewrite Heq. unfold letter_colon_text.
  destruct (strip line) as [|c [|d r]].
  - split; [congruence | intros [c [r [H _]]]; discriminate H].
  - split; [congruence | intros [c' [r [H _]]]; discriminate H].
  - destruct (is_canonical (String c "") && Ascii.eqb d ":"
              && truthy (strip r)) eqn:Econd.
    + apply andb_true_iff in Econd as [Econd Er].
      apply andb_true_iff in Econd as [Ec Ed].
      apply Ascii.eqb_eq in Ed. subst d. split.
      * intros _. exists c, r. repeat split; try assumption.
        intros E. now rewrite E in Er.
      * intros _ E. apply (f_equal (@List.length Turn)) in E.
        rewrite length_app in E. simpl in E. lia.
    + split; [congruence|].
      intros [c' [r' [H [Hc Hr]]]]. inversion H; subst.
      rewrite Hc in Econd. simpl in Econd.
      destruct (strip r'); [congruence | discriminate Econd].
Qed.

Lemma colon_tier_anchoring_witness :
  parse_line " S:  Bye now " []
  = match letter_colon_text (strip " S:  Bye now ") with
    | Some t => ([] ++ [t])%list
    | None => []
    end
  /\ (parse_line " S:  Bye now " [] <> [] <->
      exists c r, strip " S:  Bye now " = String c (String ":" r)
                  /\ is_canonical (String c "") = true
                  /\ strip r <> "").
Proof.
  apply (colon_tier_anchoring " S:  Bye now " []); reflexivity.
Defined.

(* ================================================================== *)
(** ** Claims on the converter *)

Section ConverterClaims.

Lemma keys_of_combine {V} (l : list string) (ids : list V) :
  List.length l <= List.length ids -> dict_keys (combine l ids) = l.
Proof.
  revert ids. induction l as [|x l IH]; intros [|i ids] H; simpl in *;
    try reflexivity; try lia.
  f_equal. apply IH. lia.
Qed.

(** The mapping the converter builds when the caller supplies none. *)
Lemma resolve_mapping_auto script :
  resolve_mapping script None
  = Ok (combine (firstn 4 (detect_speakers script)) google_ids).
Proof.
  unfold resolve_mapping. apply assign_ids_spec, detect_speakers_NoDup.
Qed.

Lemma auto_mapping_keys script :
  dict_keys (combine (firstn 4 (detect_speakers script)) google_ids)
  = firstn 4 (detect_speakers script).
Proof.
  apply keys_of_combine. rewrite length_firstn.
  change (List.length google_ids) with 4. lia.
Qed.

(** A line whose label is no key of the mapping adds nothing. *)
Lemma convert_line_unmapped mapping line m acc :
  re_match convert_re (strip line) = Some m ->
  dict_get mapping (strip (group m 1)) = None ->
  convert_line mapping line acc = acc.
Proof.
  intros Hm Hget. unfold convert_line. rewrite Hm, Hget.
  destruct (negb _); [reflexivity|]. destruct (contains _ _); reflexivity.
Qed.

Lemma convert_lines_flat mapping script :
  convert_lines mapping script
  = flat_map (fun line => convert_line mapping line []) (split LF script).
Proof.
  unfold convert_lines.
  enough (H : forall lines acc,
            fold_left (fun acc line => convert_line mapping line acc) lines acc
            = (acc ++ flat_map (fun line => convert_line mapping line []) lines)%list)
    by apply (H _ []).
  induction lines as [|l lines IH]; intros acc; simpl.
  - now rewrite app_nil_r.
  - rewrite IH, (convert_line_appends mapping l acc), <- app_assoc.
    reflexivity.
Qed.

(** The reply of the tool cannot be built for a mapping to a value
    outside R, S, T, U: the listing of the mapping looks the value up
    in [GOOGLE_SPEAKERS]. *)
Lemma reply_listing_key_error :
  convert_to_google_format (Some "Alice: Hi") (Some [("Alice", "X")])
  = Raise KeyError.
Proof. reflexivity. Qed.

(** Five labels: the lines of the fifth are left out of the reply. *)
Lemma five_labels_reply :
  convert_to_google_format
    (Some ("A: 1" ++ LF ++ "B: 2" ++ LF ++ "C: 3" ++ LF ++ "D: 4" ++ LF
           ++ "E: 5" ++ LF ++ "A: 6"))
    None
  = Ok (Converted
          [("A", "R", "Friendly, conversational voice suitable for hosts");
           ("B", "S", "Clear, informative voice suitable for experts");
           ("C", "T", "Dynamic voice suitable for enthusiastic commentary");
           ("D", "U", "Thoughtful voice suitable for deeper discussions")]
          ("R|1" ++ LF ++ "S|2" ++ LF ++ "T|3" ++ LF ++ "U|4" ++ LF ++ "R|6")).
Proof. reflexivity. Qed.

End ConverterClaims.

(** C5.  When the caller supplies no mapping, the detected labels are
    the labels of the lines in the order of their first appearance, each
    once, and the first four of them are mapped, in that order, to R, S,
    T, U.  On the script [Alice: Hi there / Bob: Hello back] the mapping
    is Alice to R, Bob to S, and the converted script is
    [R|Hi there / S|Hello back]. *)
Theorem auto_mapping_first_appearance script :
  detect_speakers script
  = first_appearance (flat_map detected_label (split LF script))
  /\ NoDup (detect_speakers script)
  /\ resolve_mapping script None
     = Ok (combine (firstn 4 (detect_speakers script)) ["R"; "S"; "T"; "U"])
  /\ resolve_mapping ("Alice: Hi there" ++ LF ++ "Bob: Hello back") None
     = Ok [("Alice", "R"); ("Bob", "S")]
  /\ convert_to_google_format
       (Some ("Alice: Hi there" ++ LF ++ "Bob: Hello back")) None
     = Ok (Converted
             [("Alice", "R", "Friendly, conversational voice suitable for hosts");
              ("Bob", "S", "Clear, informative voice suitable for experts")]
             ("R|Hi there" ++ LF ++ "S|Hello back")).
Proof.
  split; [apply detect_speakers_first_appearance|].
  split; [apply detect_speakers_NoDup|].
  split; [apply resolve_mapping_auto|].
  split; reflexivity.
Qed.

(** C6.  The automatic mapping has at most four entries, its keys are
    the first four detected labels.  A label detected fifth or later has
    no entry, and a line carrying such a label leaves the converted lines
    as they were: nothing is appended for it, neither a line nor a
    placeholder nor a diagnostic.  The converted lines are exactly what
    the lines of the script contribute one by one. *)
Theorem fifth_label_is_dropped script label line m acc :
  In label (skipn 4 (detect_speakers script)) ->
  re_match convert_re (strip line) = Some m ->
  strip (group m 1) = label ->
  exists mapping,
    resolve_mapping script None = Ok mapping
    /\ List.length mapping <= 4
    /\ dict_keys mapping = firstn 4 (detect_speakers script)
    /\ dict_get mapping label = None
    /\ convert_line mapping line acc = acc
    /\ convert_lines mapping script
       = flat_map (fun l => convert_line mapping l []) (split LF script).
Proof.
  intros Hin Hm Hlabel.
  exists (combine (firstn 4 (detect_speakers script)) google_ids).
  assert (Hnone : dict_get (combine (firstn 4 (detect_speakers script)) google_ids)
                           label = None).
  { apply dict_get_absent. rewrite auto_mapping_keys.
    apply (NoDup_split_disjoint _ (skipn 4 (detect_speakers script)));
      [|assumption].
    rewrite firstn_skipn. apply detect_speakers_NoDup. }
  split; [apply resolve_mapping_auto|].
  split; [rewrite length_combine, length_firstn;
          change (List.length google_ids) with 4; lia|].
  split; [apply auto_mapping_keys|].
  split; [exact Hnone|].
  split; [|apply convert_lines_flat].
  apply (convert_line_unmapped _ _ m); [assumption|].
  now rewrite Hlabel.
Qed.

Lemma fifth_label_is_dropped_witness :
  exists mapping,
    resolve_mapping
      ("A: 1" ++ LF ++ "B: 2" ++ LF ++ "C: 3" ++ LF ++ "D: 4" ++ LF ++ "E: 5")
      None = Ok mapping
    /\ List.length mapping <= 4
    /\ dict_keys mapping
       = firstn 4 (detect_speakers
           ("A: 1" ++ LF ++ "B: 2" ++ LF ++ "C: 3" ++ LF ++ "D: 4" ++ LF ++ "E: 5"))
    /\ dict_get mapping "E" = None
    /\ convert_line mapping "E: 5" ["U|4"] = ["U|4"]
    /\ convert_lines mapping
         ("A: 1" ++ LF ++ "B: 2" ++ LF ++ "C: 3" ++ LF ++ "D: 4" ++ LF ++ "E: 5")
       = flat_map (fun l => convert_line mapping l [])
           (split LF
              ("A: 1" ++ LF ++ "B: 2" ++ LF ++ "C: 3" ++ LF ++ "D: 4" ++ LF ++ "E: 5")).
Proof.
  apply (fifth_label_is_dropped
           ("A: 1" ++ LF ++ "B: 2" ++ LF ++ "C: 3" ++ LF ++ "D: 4" ++ LF ++ "E: 5")
           "E" "E: 5" [(2, "5"); (1, "E")] ["U|4"]).
  - vm_compute. left. reflexivity.
  - reflexivity.
  - reflexivity.
Defined.


(* ================================================================== *)
(** ** Further properties: trimming and splitting *)

Section StripFacts.

Lemma lstrip_cases s : lstrip s = "" \/ first_ok (lstrip s) = true.
Proof.
  induction s as [|c s IH]; [now left|].
  simpl. destruct (is_space c) eqn:E; [assumption|].
  right. simpl. now rewrite E.
Qed.

Lemma rstrip_last s : truthy (rstrip s) = true -> last_ok (rstrip s) = true.
Proof.
  induction s as [|c s IH]; [discriminate|].
  simpl. destruct (is_space c) eqn:Ec; destruct (rstrip s) as [|d r] eqn:Er;
    simpl; try discriminate; intros _.
  - apply IH. reflexivity.
  - now rewrite Ec.
  - apply IH. reflexivity.
Qed.

Lemma rstrip_first s : first_ok s = true -> first_ok (rstrip s) = true.
Proof.
  destruct s as [|c s]; [discriminate|].
  simpl. intros H. apply negb_true_iff in H. rewrite H. simpl. now rewrite H.
Qed.

(** A non-empty [strip] result has no whitespace at either end. *)
Lemma strip_trimmed s :
  truthy (strip s) = true ->
  first_ok (strip s) = true /\ last_ok (strip s) = true.
Proof.
  unfold strip. intros H. split; [|now apply rstrip_last].
  destruct (lstrip_cases s) as [E | E].
  - rewrite E in H. discriminate.
  - now apply rstrip_first.
Qed.

Lemma strip_blank s : strip s = "" <-> lstrip s = "".
Proof.
  unfold strip. split.
  - intros H. destruct (lstrip_cases s) as [E | E]; [assumption|].
    apply rstrip_first in E. rewrite H in E. discriminate.
  - intros ->. reflexivity.
Qed.

Lemma lstrip_idem s : lstrip (lstrip s) = lstrip s.
Proof.
  induction s as [|c s IH]; [reflexivity|].
  simpl. destruct (is_space c) eqn:E; [assumption|]. simpl. now rewrite E.
Qed.

Lemma rstrip_idem s : rstrip (rstrip s) = rstrip s.
Proof.
  induction s as [|c s IH]; [reflexivity|].
  simpl. destruct (is_space c && negb (truthy (rstrip s))) eqn:E;
    [reflexivity|].
  simpl. now rewrite IH, E.
Qed.

Lemma lstrip_rstrip s : lstrip (rstrip s) = rstrip (lstrip s).
Proof.
  induction s as [|c s IH]; [reflexivity|].
  simpl. destruct (is_space c) eqn:Ec; simpl.
  - destruct (rstrip s) eqn:Er; simpl.
    + now rewrite <- IH.
    + now rewrite Ec, <- IH.
  - now rewrite Ec.
Qed.

Lemma strip_lstrip s : strip (lstrip s) = strip s.
Proof. unfold strip. now rewrite lstrip_idem. Qed.

Lemma strip_rstrip s : strip (rstrip s) = strip s.
Proof. unfold strip. now rewrite lstrip_rstrip, rstrip_idem. Qed.

Lemma strip_idem s : strip (strip s) = strip s.
Proof. unfold strip at 2. rewrite strip_rstrip. apply strip_lstrip. Qed.

Lemma lstrip_before_pipe a b : lstrip (a ++ "|" ++ b) = lstrip a ++ "|" ++ b.
Proof.
  induction a as [|c a IH]; [reflexivity|].
  simpl. destruct (is_space c); [assumption | reflexivity].
Qed.

Lemma rstrip_after_pipe a b : rstrip (a ++ "|" ++ b) = a ++ "|" ++ rstrip b.
Proof.
  induction a as [|c a IH].
  - simpl. reflexivity.
  - change (String c a ++ "|" ++ b) with (String c (a ++ "|" ++ b)).
    cbn [rstrip]. rewrite IH.
    assert (truthy (a ++ "|" ++ rstrip b) = true) as ->
      by (destruct a; reflexivity).
    now rewrite andb_false_r.
Qed.

Lemma strip_around_pipe a b :
  strip (a ++ "|" ++ b) = lstrip a ++ "|" ++ rstrip b.
Proof. unfold strip. now rewrite lstrip_before_pipe, rstrip_after_pipe. Qed.

Lemma contains_pipe_mid a b : contains "|" (a ++ "|" ++ b) = true.
Proof.
  induction a as [|c a IH]; [reflexivity|].
  change (String c a ++ "|" ++ b) with (String c (a ++ "|" ++ b)).
  cbn [contains]. rewrite IH. apply orb_true_r.
Qed.

Lemma contains_pipe_lstrip a :
  contains "|" a = false -> contains "|" (lstrip a) = false.
Proof.
  induction a as [|c a IH]; [reflexivity|].
  intros H. simpl. destruct (is_space c); [|assumption].
  simpl in H. apply orb_false_iff in H as [_ H]. now apply IH.
Qed.

(** [s.split('|', 1)] cuts at the first pipe. *)
Lemma split_first_pipe a b :
  contains "|" a = false -> split_max "|" (a ++ "|" ++ b) 1 = [a; b].
Proof.
  unfold split_max. induction a as [|c a IH]; intros H.
  - simpl. now rewrite split_go_exhausted.
  - simpl in H. apply orb_false_iff in H as [Hc Ha].
    rewrite andb_true_r in Hc.
    change (String c a ++ "|" ++ b) with (String c (a ++ "|" ++ b)).
    cbn [split_go can_split startswith andb]. rewrite Hc. cbn [andb].
    now rewrite (IH Ha).
Qed.

Lemma startswith_hash_pipe a b :
  startswith (a ++ "|" ++ b) "#" = startswith a "#".
Proof. destruct a; reflexivity. Qed.

Lemma startswith_slashes_pipe a b :
  startswith (a ++ "|" ++ b) "//" = startswith a "//".
Proof.
  destruct a as [|c [|d a]]; reflexivity.
Qed.

Lemma dict_has_canonical s : dict_has GOOGLE_SPEAKERS s = is_canonical s.
Proof.
  unfold dict_has, is_canonical, list_mem, google_ids, GOOGLE_SPEAKERS.
  cbn [dict_get existsb].
  repeat match goal with
         | |- context [String.eqb s ?x] => destruct (String.eqb s x)
         end; reflexivity.
Qed.

(** A script all of whose blank-line paragraphs are blank is blank. *)
Lemma paragraphs_blank s :
  (forallb (fun p => negb (truthy (lstrip p))) (split_go (LF ++ LF) None 0 s) = true
   -> lstrip s = "")
  /\ (forallb (fun p => negb (truthy (lstrip p))) (split_go (LF ++ LF) None 1 s) = true
      -> lstrip (match s with "" => "" | String _ s' => s' end) = "").
Proof.
  induction s as [|a s [IH0 IH1]]; [split; reflexivity|].
  split; [|exact IH0].
  cbn [split_go can_split andb]. 
  destruct (startswith (String a s) (LF ++ LF)) eqn:E.
  - cbn [forallb lstrip truthy negb andb String.length Nat.sub].
    simpl in E. apply andb_true_iff in E as [Ea Es].
    apply Ascii.eqb_eq in Ea. subst a.
    destruct s as [|b s]; [discriminate|].
    rewrite andb_true_r in Es. apply Ascii.eqb_eq in Es. subst b.
    intros H. simpl. apply IH1 in H. exact H.
  - destruct (split_go (LF ++ LF) None 0 s) as [|x xs] eqn:Ex.
    + simpl. intros H. rewrite andb_true_r in H.
      destruct (is_space a) eqn:Ea; [|discriminate].
      apply IH0. reflexivity.
    + simpl. intros H. apply andb_true_iff in H as [Hx Hxs].
      destruct (is_space a) eqn:Ea; [|discriminate].
      apply IH0. simpl. now rewrite Hx, Hxs.
Qed.

End StripFacts.

(* ================================================================== *)
(** ** Further properties of the parser *)

Section ParserFacts.

Lemma forallb_flat_map {A B} (p : B -> bool) (f : A -> list B) l :
  (forall x, In x l -> forallb p (f x) = true) ->
  forallb p (flat_map f l) = true.
Proof.
  induction l as [|x l IH]; intros H; [reflexivity|].
  simpl. rewrite forallb_app, (H x (or_introl eq_refl)). simpl.
  apply IH. intros y Hy. apply H. now right.
Qed.

Lemma pipe_tier_valid l : forallb turn_valid (pipe_tier l []) = true.
Proof.
  unfold pipe_tier.
  destruct (List.length (split_max "|" l 1) =? 2)%nat; [|reflexivity].
  destruct (dict_has GOOGLE_SPEAKERS _ && truthy _) eqn:E; [|reflexivity].
  apply andb_true_iff in E as [Hs Ht]. rewrite dict_has_canonical in Hs.
  destruct (strip_trimmed _ Ht) as [Hf Hl].
  simpl. unfold turn_valid. simpl. now rewrite Hs, Hf, Hl.
Qed.

Lemma letter_colon_text_valid l t :
  letter_colon_text l = Some t -> turn_valid t = true.
Proof.
  unfold letter_colon_text. destruct l as [|c [|d r]]; try discriminate.
  destruct (is_canonical (String c "") && Ascii.eqb d ":" && truthy (strip r))
    eqn:E; [|discriminate].
  intros H. injection H as <-.
  apply andb_true_iff in E as [E Ht]. apply andb_true_iff in E as [Hc _].
  destruct (strip_trimmed _ Ht) as [Hf Hl].
  unfold turn_valid. simpl. now rewrite Hc, Hf, Hl.
Qed.

Lemma parse_line_valid line :
  no_lf line = true -> forallb turn_valid (parse_line line []) = true.
Proof.
  intros Hn. unfold parse_line.
  destruct (negb _ || _ || _); [reflexivity|].
  destruct (contains "|" (strip line)); [apply pipe_tier_valid|].
  destruct (contains ":" (strip line)); [|reflexivity].
  rewrite colon_tier_spec by now apply no_lf_strip.
  destruct (letter_colon_text (strip line)) as [t|] eqn:E; [|reflexivity].
  simpl. now rewrite (letter_colon_text_valid _ _ E).
Qed.

(** The fallback loop in closed form: one turn per paragraph, the
    speaker chosen by the parity of the index. *)
Lemma fallback_loop (l : list (nat * string)) : forall acc,
  fold_left
    (fun turns ip =>
       append turns
         (mkTurn (nth (fst ip mod List.length ["R"; "S"]) ["R"; "S"] "") (snd ip)))
    l acc
  = (acc ++ map (fun ip => mkTurn (if (fst ip mod 2 =? 0)%nat then "R" else "S")
                                   (snd ip)) l)%list.
Proof.
  induction l as [|[i p] l IH]; intros acc; cbn [fold_left].
  - cbn [map]. now rewrite app_nil_r.
  - rewrite IH. unfold append. rewrite <- app_assoc.
    cbn [app map fst snd]. do 3 f_equal.
    change (List.length ["R"; "S"]) with 2.
    assert (H : i mod 2 < 2) by (apply Nat.mod_upper_bound; lia).
    destruct (i mod 2) as [|[|k]]; [reflexivity | reflexivity | lia].
Qed.

Lemma in_enumerate {A} (l : list A) i x :
  In (i, x) (enumerate l) -> In x l.
Proof. unfold enumerate. apply in_combine_r. Qed.

Lemma fallback_valid script :
  forallb turn_valid (paragraph_fallback script []) = true.
Proof.
  unfold paragraph_fallback. rewrite fallback_loop. simpl app.
  apply forallb_forall. intros t Ht.
  apply in_map_iff in Ht as [[i p] [<- Hin]].
  apply in_enumerate in Hin. apply in_map_iff in Hin as [q [Eq Hq]].
  apply filter_In in Hq as [_ Hq].
  destruct (strip_trimmed _ Hq) as [Hf Hl]. rewrite Eq in Hf, Hl.
  unfold turn_valid. cbn [speaker text fst snd]. rewrite Hf, Hl.
  destruct (_ =? 0)%nat; reflexivity.
Qed.

Lemma tiers_valid s :
  forallb turn_valid
    (fold_left (fun turns line => parse_line line turns) (split LF s) []) = true.
Proof.
  rewrite parse_lines_flat. simpl app.
  apply forallb_flat_map. intros l Hl. apply parse_line_valid.
  apply (proj1 (forallb_forall _ _) (split_LF_lines s)). assumption.
Qed.

Lemma enumerate_nonempty {A} (l : list A) : l <> [] -> enumerate l <> [].
Proof. destruct l; [congruence | discriminate]. Qed.

(** A script that is not blank has a paragraph that is not blank. *)
Lemma some_paragraph s :
  truthy (strip s) = true ->
  filter (fun p => truthy (strip p)) (split (LF ++ LF) s) <> [].
Proof.
  intros H Hnil.
  assert (Hall : forallb (fun p => negb (truthy (lstrip p)))
                         (split_go (LF ++ LF) None 0 s) = true).
  { apply forallb_forall. intros p Hp.
    destruct (truthy (strip p)) eqn:E.
    - assert (Hin : In p (filter (fun p => truthy (strip p))
                                 (split (LF ++ LF) s)))
        by (apply filter_In; split; assumption).
      rewrite Hnil in Hin. destruct Hin.
    - assert (Es : strip p = "") by (destruct (strip p); [reflexivity | discriminate]).
      apply strip_blank in Es. now rewrite Es. }
  apply (proj1 (paragraphs_blank s)) in Hall.
  apply strip_blank in Hall. rewrite Hall in H. discriminate.
Qed.

End ParserFacts.

(** X1.  Every turn the parser returns is valid, whatever the script and
    whichever tier produced it: its speaker is one of R, S, T, U and its
    text is not empty and has no whitespace at either end. *)
Theorem parsed_turns_valid script :
  forallb turn_valid (parse_google_script script) = true.
Proof.
  unfold parse_google_script.
  destruct (negb _ && truthy (strip script)) eqn:E; [|apply tiers_valid].
  apply andb_true_iff in E as [E _]. apply negb_true_iff in E.
  destruct (fold_left _ _ _); [apply fallback_valid | discriminate].
Qed.

(** X2.  The parser returns no turn exactly when the script is blank
    (empty or whitespace only): any other script yields at least one
    turn, through the paragraph fallback if no line is recognised. *)
Theorem parse_empty_iff_blank script :
  parse_google_script script = [] <-> strip script = "".
Proof.
  unfold parse_google_script. split.
  - intros H. destruct (truthy (strip script)) eqn:Et;
      [|destruct (strip script); [reflexivity | discriminate]].
    exfalso.
    destruct (fold_left _ (split LF (strip script)) []) as [|t ts] eqn:Ef;
      [|simpl in H; discriminate].
    simpl in H. unfold paragraph_fallback in H.
    rewrite fallback_loop in H. simpl app in H.
    apply map_eq_nil in H.
    revert H. apply enumerate_nonempty.
    intros Hm. apply map_eq_nil in Hm. revert Hm. now apply some_paragraph.
  - intros ->. reflexivity.
Qed.

(** X3.  The pipe tier cuts a line at its first pipe.  For a line
    [a|b] whose label [a] holds no pipe and is no comment, the loop body
    emits the turn (upper-cased trimmed [a], trimmed [b]) when that
    speaker is one of R, S, T, U and the text is not blank, and nothing
    otherwise; later pipes stay in the text, and a pipe line is never
    handed to the colon tier. *)
Theorem pipe_line_parsed a b turns :
  contains "|" a = false ->
  startswith (lstrip a) "#" = false ->
  startswith (lstrip a) "//" = false ->
  parse_line (a ++ "|" ++ b) turns
  = if is_canonical (upper (strip a)) && truthy (strip b)
    then (turns ++ [mkTurn (upper (strip a)) (strip b)])%list
    else turns.
Proof.
  intros Hp Hh Hs. unfold parse_line.
  rewrite strip_around_pipe, startswith_hash_pipe, startswith_slashes_pipe.
  rewrite Hh, Hs, contains_pipe_mid.
  assert (truthy (lstrip a ++ "|" ++ rstrip b) = true) as ->
    by (destruct (lstrip a); reflexivity).
  cbn [negb orb]. unfold pipe_tier.
  rewrite split_first_pipe by now apply contains_pipe_lstrip.
  cbn [List.length Nat.eqb nth].
  rewrite strip_lstrip, strip_rstrip, dict_has_canonical. reflexivity.
Qed.

Lemma pipe_line_parsed_witness :
  parse_line (" s " ++ "|" ++ " a|b ") []
  = if is_canonical (upper (strip " s ")) && truthy (strip " a|b ")
    then ([] ++ [mkTurn (upper (strip " s ")) (strip " a|b ")])%list
    else [].
Proof.
  apply (pipe_line_parsed " s " " a|b " []); reflexivity.
Defined.

Section FreeText.

Variable ch : ascii.

Lemma contains_char_step c s :
  contains (String ch "") (String c s)
  = Ascii.eqb c ch || contains (String ch "") s.
Proof. cbn [contains startswith]. now rewrite andb_true_r. Qed.

Lemma contains_char_lstrip s :
  contains (String ch "") s = false ->
  contains (String ch "") (lstrip s) = false.
Proof.
  induction s as [|c s IH]; [reflexivity|].
  intros H. cbn [lstrip]. destruct (is_space c); [|assumption].
  rewrite contains_char_step in H. apply orb_false_iff in H as [_ H].
  now apply IH.
Qed.

Lemma contains_char_rstrip s :
  contains (String ch "") s = false ->
  contains (String ch "") (rstrip s) = false.
Proof.
  induction s as [|c s IH]; [reflexivity|].
  intros H. rewrite contains_char_step in H.
  apply orb_false_iff in H as [Hc H].
  cbn [rstrip]. destruct (is_space c && negb (truthy (rstrip s)));
    [reflexivity|].
  rewrite contains_char_step, Hc. now apply IH.
Qed.

Lemma contains_char_strip s :
  contains (String ch "") s = false ->
  contains (String ch "") (strip s) = false.
Proof.
  intros H. unfold strip. now apply contains_char_rstrip, contains_char_lstrip.
Qed.

Lemma contains_char_lines s :
  contains (String ch "") s = false ->
  forall l, In l (split LF s) -> contains (String ch "") l = false.
Proof.
  induction s as [|c s IH]; intros H l Hl.
  - destruct Hl as [<- | []]. reflexivity.
  - rewrite contains_char_step in H. apply orb_false_iff in H as [Hc H].
    rewrite split_LF_step in Hl.
    destruct (Ascii.eqb c LF_char).
    + destruct Hl as [<- | Hl]; [reflexivity | now apply IH].
    + destruct (split LF s) as [|x xs] eqn:E; simpl in Hl.
      * destruct Hl as [<- | []]. rewrite contains_char_step, Hc. reflexivity.
      * destruct Hl as [<- | Hl].
        -- rewrite contains_char_step, Hc. apply IH; [assumption | now left].
        -- apply IH; [assumption | now right].
Qed.

End FreeText.

(** X4.  A script with neither a pipe nor a colon is read as free
    paragraphs: the turns are the non-blank paragraphs between blank-line
    boundaries, each trimmed, in order, spoken by R and S in turn starting
    with R; a blank script gives no turn. *)
Theorem free_text_paragraphs script :
  contains "|" script = false ->
  contains ":" script = false ->
  parse_google_script script
  = if truthy (strip script)
    then map (fun ip => mkTurn (if (fst ip mod 2 =? 0)%nat then "R" else "S")
                               (snd ip))
             (enumerate
                (map strip (filter (fun p => truthy (strip p))
                                   (split (LF ++ LF) script))))
    else [].
Proof.
  intros Hp Hc.
  assert (Htiers : fold_left (fun turns line => parse_line line turns)
                             (split LF (strip script)) [] = []).
  { rewrite parse_lines_flat. simpl app.
    induction (split LF (strip script)) as [|l ls IH] eqn:E in |- *;
      [reflexivity|].
    assert (Hall : forall l', In l' (l :: ls) ->
              parse_line l' [] = []).
    { intros l' Hl'. unfold parse_line.
      rewrite <- E in Hl'.
      rewrite (contains_char_strip "|" l'), (contains_char_strip ":" l').
      - destruct (negb _ || _ || _); reflexivity.
      - apply (contains_char_lines ":" (strip script));
          [now apply contains_char_strip | assumption].
      - apply (contains_char_lines "|" (strip script));
          [now apply contains_char_strip | assumption]. }
    clear E IH. induction (l :: ls) as [|x xs IHx]; [reflexivity|].
    simpl. rewrite (Hall x (or_introl eq_refl)). simpl.
    apply IHx. intros l' Hl'. apply Hall. now right. }
  unfold parse_google_script. rewrite Htiers. cbn [negb andb].
  destruct (truthy (strip script)); [|reflexivity].
  unfold paragraph_fallback. rewrite fallback_loop. reflexivity.
Qed.

Lemma free_text_paragraphs_witness :
  parse_google_script ("Just a paragraph." ++ LF ++ LF ++ "Another one.")
  = if truthy (strip ("Just a paragraph." ++ LF ++ LF ++ "Another one."))
    then map (fun ip => mkTurn (if (fst ip mod 2 =? 0)%nat then "R" else "S")
                               (snd ip))
             (enumerate
                (map strip
                   (filter (fun p => truthy (strip p))
                      (split (LF ++ LF)
                         ("Just a paragraph." ++ LF ++ LF ++ "Another one.")))))
    else [].
Proof.
  apply (free_text_paragraphs
           ("Just a paragraph." ++ LF ++ LF ++ "Another one.")); reflexivity.
Defined.

(* ================================================================== *)
(** ** Further properties of the generator *)

Section GeneratorFacts.

Variable topic : string.

Lemma pick_at {A} (l : list A) (i : nat) (d : A) :
  l <> [] ->
  forall B (k : A -> result B),
    bind (py_mod i (List.length l)) (fun j => bind (list_get l j) k)
    = k (nth (i mod List.length l) l d).
Proof.
  intros Hne B k.
  assert (Hlen : List.length l <> 0) by (destruct l; simpl; congruence).
  assert (Hlt : i mod List.length l < List.length l)
    by (apply Nat.mod_upper_bound; assumption).
  unfold py_mod. destruct (List.length l) eqn:El; [congruence|].
  cbv iota. rewrite bind_ok. unfold list_get.
  rewrite (nth_error_nth' l d) by (rewrite El; exact Hlt). reflexivity.
Qed.

(** The speakers of one iteration: first speaker, second speaker, and
    on every third iteration of a format with more than two speakers the
    third one. *)
Lemma main_turn_speakers sp ctx i :
  sp <> [] -> key_points_indexable ctx = true ->
  exists new,
    main_turn topic sp ctx i [] = Ok new
    /\ map speaker new
       = ([nth 0 sp ""; nth (1 mod List.length sp) sp ""]
          ++ (if (2 <? List.length sp) && (i mod 3 =? 0)
              then [nth (2 mod List.length sp) sp ""] else []))%list%nat.
Proof.
  intros Hsp Hkp.
  assert (E0 : list_get sp 0 = Ok (nth 0 sp ""))
    by (destruct sp; [congruence | reflexivity]).
  assert (Hresp : forall intro, exists txt,
    (match ctx with
     | Some c =>
         if context_truthy c then
           match key_points c with
           | Some kp =>
               pi <- py_mod i (List.length kp) ;;
               point <- list_get kp pi ;;
               Ok (intro ++ " When it comes to " ++ point ++ " in "
                   ++ topic ++ ", we're seeing significant developments.")
           | None =>
               Ok (intro ++ " " ++ topic
                   ++ " has many dimensions we need to consider.")
           end
         else Ok (intro ++ " " ++ topic
                  ++ " has many dimensions we need to consider.")
     | None => Ok (intro ++ " " ++ topic
                   ++ " has many dimensions we need to consider.")
     end) = Ok txt).
  { intros intro. destruct ctx as [c|]; simpl in *; [|eexists; reflexivity].
    destruct (context_truthy c); [|eexists; reflexivity].
    destruct (key_points c) as [kp|]; [|eexists; reflexivity].
    destruct kp as [|k kp]; [discriminate|].
    rewrite (pick_at (k :: kp) i "") by discriminate.
    eexists; reflexivity. }
  unfold main_turn. rewrite E0, bind_ok.
  rewrite (pick_at content_prompts i "") by discriminate.
  rewrite (pick_at sp 1 "") by assumption.
  rewrite (pick_at responses i "") by discriminate.
  destruct (Hresp (nth (i mod List.length responses) responses "")) as [txt Etxt].
  rewrite Etxt, bind_ok.
  destruct ((2 <? List.length sp) && (i mod 3 =? 0))%nat.
  - rewrite (pick_at sp 2 "") by assumption.
    rewrite (pick_at reactions i "") by discriminate.
    eexists; split; reflexivity.
  - eexists; split; reflexivity.
Qed.

Lemma main_loop_speakers sp ctx l :
  sp <> [] -> key_points_indexable ctx = true ->
  exists news,
    for_each l (main_turn topic sp ctx) [] = Ok news
    /\ map speaker news
       = flat_map
           (fun i =>
              [nth 0 sp ""; nth (1 mod List.length sp) sp ""]
              ++ (if (2 <? List.length sp) && (i mod 3 =? 0)
                  then [nth (2 mod List.length sp) sp ""] else []))%list%nat
           l.
Proof.
  intros Hsp Hkp. induction l as [|i l [news [E H]]]; cbn [for_each flat_map].
  - exists []. split; reflexivity.
  - destruct (main_turn_speakers sp ctx i Hsp Hkp) as [new [En Hn]].
    rewrite En, bind_ok, for_each_main_appends, E, bind_ok.
    exists (new ++ news)%list. split; [reflexivity|].
    now rewrite map_app, Hn, H.
Qed.

(** The speakers of the opening and of the closing. *)
Lemma opening_speakers f :
  exists o,
    opening topic f (speakers (format_lookup f)) [] = Ok o
    /\ map speaker o
       = if String.eqb f "debate" then ["R"; "S"; "T"] else ["R"; "S"].
Proof.
  unfold opening.
  destruct (String.eqb_spec f "interview") as [-> | Hi];
    [eexists; split; reflexivity|].
  destruct (String.eqb_spec f "debate") as [-> | Hd];
    [eexists; split; reflexivity|].
  destruct (speakers_cases f) as [E | [E | E]]; rewrite E;
    eexists; split; reflexivity.
Qed.

Lemma closing_speakers f turns :
  exists cl,
    closing topic (speakers (format_lookup f)) turns = Ok (turns ++ cl)%list
    /\ map speaker cl = ["R"; "S"; "R"].
Proof.
  unfold closing.
  destruct (speakers_cases f) as [E | [E | E]]; rewrite E;
    (eexists; split;
     [cbn [bind list_get nth_error List.length Nat.ltb Nat.leb];
      unfold append; rewrite <- !app_assoc; reflexivity
     | reflexivity]).
Qed.

Lemma body_speakers_catalog f i :
  ([nth 0 (speakers (format_lookup f)) "";
    nth (1 mod List.length (speakers (format_lookup f)))
        (speakers (format_lookup f)) ""]
   ++ (if (2 <? List.length (speakers (format_lookup f))) && (i mod 3 =? 0)
       then [nth (2 mod List.length (speakers (format_lookup f)))
                 (speakers (format_lookup f)) ""]
       else []))%list%nat
  = (["R"; "S"]
     ++ (if (2 <? List.length (speakers (format_lookup f))) && (i mod 3 =? 0)
         then ["T"] else []))%list%nat.
Proof.
  destruct (speakers_cases f) as [E | [E | E]]; rewrite E;
    cbn [List.length Nat.ltb Nat.leb andb];
    try reflexivity; destruct (i mod 3 =? 0)%nat; reflexivity.
Qed.

(** The speakers of a whole generated script. *)
Lemma generate_speakers ctx f d :
  key_points_indexable ctx = true ->
  exists turns,
    generate_dialogue_turns topic f d ctx = Ok turns
    /\ map speaker turns
       = ((if String.eqb f "debate" then ["R"; "S"; "T"] else ["R"; "S"])
          ++ flat_map
               (fun i =>
                  ["R"; "S"]
                  ++ (if (2 <? List.length (speakers (format_lookup f)))
                         && (i mod 3 =? 0)
                      then ["T"] else []))%list%nat
               (range (Z.min (d * 2 - 4) 10))
          ++ ["R"; "S"; "R"])%list.
Proof.
  intros Hkp. unfold generate_dialogue_turns.
  change (Z.of_nat (List.length content_prompts)) with 10%Z.
  destruct (opening_speakers f) as [o [Eo Ho]].
  rewrite Eo, bind_ok.
  destruct (main_loop_speakers (speakers (format_lookup f)) ctx
              (range (Z.min (d * 2 - 4) 10)) (speakers_nonempty f) Hkp)
    as [news [En Hn]].
  rewrite for_each_main_appends, En, !bind_ok.
  destruct (closing_speakers f (o ++ news)%list) as [cl [Ec Hc]].
  rewrite Ec. eexists. split; [reflexivity|].
  rewrite !map_app, Ho, Hn, Hc, <- app_assoc. do 2 f_equal.
  clear. induction (range _) as [|i l IH]; [reflexivity|].
  cbn [flat_map]. now rewrite IH, body_speakers_catalog.
Qed.

Lemma for_each_ext {A S} (f g : A -> S -> result S) l :
  (forall i st, f i st = g i st) ->
  forall st, for_each l f st = for_each l g st.
Proof.
  intros H. induction l as [|i l IH]; intros st; [reflexivity|].
  simpl. rewrite H. destruct (g i st); simpl; [apply IH | reflexivity].
Qed.

End GeneratorFacts.

Section GeneratorBounds.

Lemma loop_length three n :
  n <= 10 ->
  List.length
    (flat_map (fun i => ["R"; "S"]
                        ++ (if three && (i mod 3 =? 0)%nat then ["T"] else []))%list
              (seq 0 n))
  = 2 * n + (if three then (n + 2) / 3 else 0).
Proof.
  intros H.
  do 11 (destruct n as [|n]; [destruct three; reflexivity|]). lia.
Qed.

Lemma short_duration_skips_loop topic f d ctx :
  (d <= 2)%Z ->
  generate_dialogue_turns topic f d ctx
  = generate_dialogue_turns topic f 2 None.
Proof.
  intros H. unfold generate_dialogue_turns, range.
  change (Z.of_nat (List.length content_prompts)) with 10%Z.
  replace (Z.to_nat (Z.min (d * 2 - 4) 10)) with 0 by lia.
  reflexivity.
Qed.

Lemma loop_aborts_on_empty_key_points topic f d other :
  (3 <= d)%Z ->
  generate_dialogue_turns topic f d (Some (mkContext (Some []) other))
  = Raise ZeroDivisionError.
Proof.
  intros Hd. unfold generate_dialogue_turns.
  destruct (opening_returns topic None f) as [o [Eo _]].
  rewrite Eo, bind_ok. unfold range.
  change (Z.of_nat (List.length content_prompts)) with 10%Z.
  destruct (Z.to_nat (Z.min (d * 2 - 4) 10)) as [|n] eqn:En; [lia|].
  cbn [seq for_each].
  rewrite main_turn_empty_key_points by apply speakers_nonempty.
  reflexivity.
Qed.

Lemma not_indexable ctx :
  key_points_indexable ctx = false ->
  exists other, ctx = Some (mkContext (Some []) other).
Proof.
  destruct ctx as [[[[|k kp]|] other]|]; simpl; try discriminate.
  intros _. now exists other.
Qed.

End GeneratorBounds.

(** X5.  The number of generated turns.  With [n] the number of loop
    iterations, at most ten, the script has five turns (six for the
    debate format), two more per iteration, and one more on every third
    iteration when the format has more than two speakers: between 5 and
    30 turns whatever the duration, not the [duration_minutes * 2] the
    source computes as [num_turns]. *)
Theorem generated_turn_count topic f d ctx :
  key_points_indexable ctx = true ->
  exists turns,
    generate_dialogue_turns topic f d ctx = Ok turns
    /\ List.length turns
       = (if String.eqb f "debate" then 6 else 5)
         + 2 * Z.to_nat (Z.min (d * 2 - 4) 10)
         + (if (2 <? List.length (speakers (format_lookup f)))%nat
            then (Z.to_nat (Z.min (d * 2 - 4) 10) + 2) / 3 else 0)
    /\ 5 <= List.length turns <= 30.
Proof.
  intros Hkp.
  destruct (generate_speakers topic ctx f d Hkp) as [turns [E Hs]].
  exists turns. split; [exact E|].
  assert (Hn : Z.to_nat (Z.min (d * 2 - 4) 10) <= 10) by lia.
  assert (Hlen : List.length turns
                 = (if String.eqb f "debate" then 6 else 5)
                   + 2 * Z.to_nat (Z.min (d * 2 - 4) 10)
                   + (if (2 <? List.length (speakers (format_lookup f)))%nat
                      then (Z.to_nat (Z.min (d * 2 - 4) 10) + 2) / 3 else 0)).
  { rewrite <- (length_map speaker turns), Hs, !length_app.
    unfold range. rewrite (loop_length _ _ Hn).
    destruct (String.eqb f "debate"); simpl List.length; lia. }
  split; [exact Hlen|].
  rewrite Hlen.
  assert ((Z.to_nat (Z.min (d * 2 - 4) 10) + 2) / 3 <= 4)
    by (apply Nat.Div0.div_le_upper_bound; lia).
  destruct (String.eqb f "debate"); destruct (2 <? _)%nat; lia.
Qed.

Lemma generated_turn_count_witness :
  exists turns,
    generate_dialogue_turns "tea" "roundtable" 6 None = Ok turns
    /\ List.length turns
       = (if String.eqb "roundtable" "debate" then 6 else 5)
         + 2 * Z.to_nat (Z.min (6 * 2 - 4) 10)
         + (if (2 <? List.length (speakers (format_lookup "roundtable")))%nat
            then (Z.to_nat (Z.min (6 * 2 - 4) 10) + 2) / 3 else 0)
    /\ 5 <= List.length turns <= 30.
Proof.
  apply (generated_turn_count "tea" "roundtable" 6 None). reflexivity.
Defined.

(** X6.  In a format with the two speakers R and S (dialogue,
    interview, educational, and any unknown name) the turns alternate
    strictly: R, S, R, S, ..., ending on R. *)
Theorem two_speakers_alternate topic f d ctx :
  speakers (format_lookup f) = ["R"; "S"] ->
  key_points_indexable ctx = true ->
  exists turns,
    generate_dialogue_turns topic f d ctx = Ok turns
    /\ map speaker turns
       = (concat (repeat ["R"; "S"] (Z.to_nat (Z.min (d * 2 - 4) 10) + 2))
          ++ ["R"])%list.
Proof.
  intros Hsp Hkp.
  destruct (generate_speakers topic ctx f d Hkp) as [turns [E Hs]].
  exists turns. split; [exact E|].
  rewrite Hs, Hsp.
  assert (Hd : String.eqb f "debate" = false).
  { destruct (String.eqb_spec f "debate") as [-> |]; [discriminate Hsp | reflexivity]. }
  rewrite Hd. unfold range.
  cbn [List.length Nat.ltb Nat.leb andb].
  generalize (Z.to_nat (Z.min (d * 2 - 4) 10)). intros n.
  assert (Hbody : forall a, flat_map (fun _ : nat => (["R"; "S"] ++ [])%list) (seq a n)
                       = concat (repeat ["R"; "S"] n)).
  { induction n as [|n IH]; intros a; [reflexivity|].
    cbn [seq flat_map repeat concat]. now rewrite IH. }
  rewrite Hbody.
  replace (n + 2) with (S (n + 1)) by lia. cbn [repeat concat].
  replace (n + 1) with (S n) by lia.
  assert (Hrep : forall k, (concat (repeat ["R"; "S"] k) ++ ["R"; "S"])%list
                      = concat (repeat ["R"; "S"] (S k))).
  { induction k as [|k IH]; [reflexivity|].
    cbn [repeat concat] in *. rewrite <- app_assoc, IH. reflexivity. }
  rewrite <- Hrep. rewrite <- !app_assoc. reflexivity.
Qed.

Lemma two_speakers_alternate_witness :
  exists turns,
    generate_dialogue_turns "tea" "interview" 4
      (Some (mkContext (Some ["green"; "black"]) [])) = Ok turns
    /\ map speaker turns
       = (concat (repeat ["R"; "S"] (Z.to_nat (Z.min (4 * 2 - 4) 10) + 2))
          ++ ["R"])%list.
Proof.
  apply (two_speakers_alternate "tea" "interview" 4
           (Some (mkContext (Some ["green"; "black"]) []))); reflexivity.
Defined.

(** X7.  Speaker U never speaks in a generated script: whatever the
    format (the four-speaker roundtable included), the duration and the
    context, every turn of a returned script is spoken by R, S or T. *)
Theorem fourth_speaker_never_speaks topic f d ctx turns :
  generate_dialogue_turns topic f d ctx = Ok turns ->
  Forall (fun t => speaker t = "R" \/ speaker t = "S" \/ speaker t = "T") turns.
Proof.
  intros E.
  assert (Hidx : exists ctx',
            key_points_indexable ctx' = true
            /\ generate_dialogue_turns topic f d ctx' = Ok turns).
  { destruct (key_points_indexable ctx) eqn:Hkp; [now exists ctx|].
    destruct (not_indexable _ Hkp) as [other ->].
    destruct (Z_lt_le_dec d 3) as [Hd | Hd].
    - exists None. split; [reflexivity|].
      rewrite short_duration_skips_loop in E by lia.
      now rewrite short_duration_skips_loop by lia.
    - rewrite loop_aborts_on_empty_key_points in E by assumption.
      discriminate. }
  destruct Hidx as [ctx' [Hkp E']].
  destruct (generate_speakers topic ctx' f d Hkp) as [turns' [E2 Hs]].
  rewrite E' in E2. injection E2 as <-.
  apply Forall_forall. intros t Ht.
  apply (in_map speaker) in Ht. rewrite Hs in Ht.
  apply in_app_iff in Ht as [Ht | Ht].
  { destruct (String.eqb f "debate"); simpl in Ht; intuition. }
  apply in_app_iff in Ht as [Ht | Ht]; [|simpl in Ht; intuition].
  apply in_flat_map in Ht as [i [_ Ht]].
  apply in_app_iff in Ht as [Ht | Ht]; [simpl in Ht; intuition|].
  destruct (_ && _); simpl in Ht; intuition.
Qed.

Lemma fourth_speaker_never_speaks_witness :
  Forall (fun t => speaker t = "R" \/ speaker t = "S" \/ speaker t = "T")
    [ mkTurn "R" "Let's explore tea together.";
      mkTurn "S" "Absolutely! This is such a relevant topic right now.";
      mkTurn "R" "This has been an enlightening discussion about tea. Any final thoughts?";
      mkTurn "S" "The key takeaway is to stay informed and engaged with these developments.";
      mkTurn "R" "Thank you for joining us today. Until next time!" ].
Proof.
  apply (fourth_speaker_never_speaks "tea" "roundtable" 1 None). reflexivity.
Defined.

(** X8.  Durations saturate: from 7 minutes on, the generator returns
    exactly what it returns for 7 minutes (the loop runs over the ten
    prompts once and never more). *)
Theorem long_durations_saturate topic f d ctx :
  (7 <= d)%Z ->
  generate_dialogue_turns topic f d ctx
  = generate_dialogue_turns topic f 7 ctx.
Proof.
  intros H. unfold generate_dialogue_turns.
  change (Z.of_nat (List.length content_prompts)) with 10%Z.
  replace (Z.min (d * 2 - 4) 10) with (Z.min (7 * 2 - 4) 10) by lia.
  reflexivity.
Qed.

Lemma long_durations_saturate_witness :
  generate_dialogue_turns "tea" "debate" 30 None
  = generate_dialogue_turns "tea" "debate" 7 None.
Proof. apply (long_durations_saturate "tea" "debate" 30 None). lia. Defined.

(** X9.  Up to 2 minutes (zero and negative durations included) the main
    loop does not run: the call returns the opening and the closing only,
    five turns (six for the debate format), whatever the context, an
    empty [key_points] list included. *)
Theorem short_durations_minimal topic f d ctx :
  (d <= 2)%Z ->
  generate_dialogue_turns topic f d ctx
  = generate_dialogue_turns topic f 2 None
  /\ exists turns,
       generate_dialogue_turns topic f d ctx = Ok turns
       /\ List.length turns = if String.eqb f "debate" then 6 else 5.
Proof.
  intros H. split; [now apply short_duration_skips_loop|].
  rewrite short_duration_skips_loop by assumption.
  destruct (generate_speakers topic None f 2 eq_refl) as [turns [E Hs]].
  exists turns. split; [exact E|].
  rewrite <- (length_map speaker turns), Hs.
  destruct (String.eqb f "debate"); reflexivity.
Qed.

Lemma short_durations_minimal_witness :
  generate_dialogue_turns "tea" "debate" 1 (Some (mkContext (Some []) []))
  = generate_dialogue_turns "tea" "debate" 2 None
  /\ exists turns,
       generate_dialogue_turns "tea" "debate" 1 (Some (mkContext (Some []) []))
       = Ok turns
       /\ List.length turns = if String.eqb "debate" "debate" then 6 else 5.
Proof.
  apply (short_durations_minimal "tea" "debate" 1
           (Some (mkContext (Some []) []))). lia.
Defined.


(* ================================================================== *)
(** ** Further properties of the matcher and of the converter *)

Section MatcherFacts.

Lemma no_lf_take n : forall s, no_lf s = true -> no_lf (take n s) = true.
Proof.
  unfold take. induction n as [|n IH]; intros [|c s] H; try reflexivity.
  simpl in *. apply andb_true_iff in H as [Hc Hs].
  now rewrite Hc, IH.
Qed.

Lemma no_lf_tail c s : no_lf (String c s) = true -> no_lf s = true.
Proof. simpl. intros H. now apply andb_true_iff in H as [_ H]. Qed.

Lemma star_greedy_one_line p k :
  cont_one_line k -> cont_one_line (fun pos s g => star_greedy p pos s g k).
Proof.
  intros Hk pos s. revert pos.
  induction s as [|c s IH]; intros pos g m Hs Hg Hm; cbn [star_greedy] in Hm.
  - now apply (Hk pos "" g m).
  - destruct (cset_mem c p).
    + destruct (star_greedy p (S pos) s g k) as [m'|] eqn:E; cbn [orelse] in Hm.
      * injection Hm as <-. apply (IH (S pos) g m'); try assumption.
        now apply no_lf_tail in Hs.
      * now apply (Hk pos (String c s) g m).
    + now apply (Hk pos (String c s) g m).
Qed.

Lemma star_lazy_one_line p k :
  cont_one_line k -> cont_one_line (fun pos s g => star_lazy p pos s g k).
Proof.
  intros Hk pos s. revert pos.
  induction s as [|c s IH]; intros pos g m Hs Hg Hm; cbn [star_lazy] in Hm.
  - destruct (k pos "" g) as [m'|] eqn:E; cbn [orelse] in Hm; [|discriminate].
    injection Hm as <-. now apply (Hk pos "" g m').
  - destruct (k pos (String c s) g) as [m'|] eqn:E; cbn [orelse] in Hm.
    + injection Hm as <-. now apply (Hk pos (String c s) g m').
    + destruct (cset_mem c p); [|discriminate].
      apply (IH (S pos) g m); try assumption. now apply no_lf_tail in Hs.
Qed.

Lemma star_one_line greedy p k :
  cont_one_line k -> cont_one_line (fun pos s g => star greedy p pos s g k).
Proof.
  destruct greedy; [apply star_greedy_one_line | apply star_lazy_one_line].
Qed.

(** Matching a one-line string captures one-line groups only. *)
Lemma rmatch_one_line r : forall k,
  cont_one_line k -> cont_one_line (fun pos s g => rmatch r pos s g k).
Proof.
  induction r as [| |p|greedy p|greedy p|r IH|n r IH|r1 IH1 r2 IH2];
    intros k Hk pos s g m Hs Hg Hm; cbn [rmatch] in Hm.
  - destruct (pos =? 0)%nat; [|discriminate]. now apply (Hk pos s g m).
  - destruct (_ || _); [|discriminate]. now apply (Hk pos s g m).
  - destruct s as [|c s]; [discriminate|].
    destruct (cset_mem c p); [|discriminate].
    apply (Hk (S pos) s g m); try assumption. now apply no_lf_tail in Hs.
  - now apply (star_one_line greedy p k Hk pos s g m).
  - destruct s as [|c s]; [discriminate|].
    destruct (cset_mem c p); [|discriminate].
    apply (star_one_line greedy p k Hk (S pos) s g m); try assumption.
    now apply no_lf_tail in Hs.
  - destruct (rmatch r pos s g k) as [m'|] eqn:E; cbn [orelse] in Hm.
    + injection Hm as <-. now apply (IH k Hk pos s g m').
    + now apply (Hk pos s g m).
  - refine (IH _ _ pos s g m Hs Hg Hm).
    intros pos' s' g' m' Hs' Hg' Hm'.
    apply (Hk pos' s' ((n, take (pos' - pos) s) :: g') m'); try assumption.
    unfold groups_one_line. cbn [forallb snd].
    rewrite (no_lf_take _ _ Hs). exact Hg'.
  - refine (IH1 _ _ pos s g m Hs Hg Hm).
    now apply IH2.
Qed.

Lemma re_match_one_line r s m :
  no_lf s = true -> re_match r s = Some m -> groups_one_line m = true.
Proof.
  intros Hs Hm. unfold re_match in Hm.
  refine (rmatch_one_line r _ _ 0 s [] m Hs eq_refl Hm).
  intros pos s' g m' _ Hg E. injection E as <-. exact Hg.
Qed.

Lemma group_one_line m n : groups_one_line m = true -> no_lf (group m n) = true.
Proof.
  intros H. unfold group.
  destruct (find (fun p => (fst p =? n)%nat) m) as [p|] eqn:E; [|reflexivity].
  apply find_some in E as [Hin _].
  apply (proj1 (forallb_forall _ _) H p Hin).
Qed.

End MatcherFacts.

Section ConverterFacts.

Lemma dict_get_In {V} (d : dict V) k v : dict_get d k = Some v -> In (k, v) d.
Proof.
  induction d as [|[k' v'] d IH]; simpl; [discriminate|].
  destruct (String.eqb_spec k k') as [-> | Hne].
  - intros H. injection H as <-. now left.
  - intros H. right. now apply IH.
Qed.

(** What one line contributes under a mapping to canonical identifiers:
    nothing, or the canonical line of a well-formed turn. *)
Lemma convert_line_turn mapping line :
  mapping_canonical mapping = true -> no_lf line = true ->
  exists ts, convert_line mapping line [] = map turn_line ts
             /\ forallb turn_ok ts = true.
Proof.
  intros Hm Hn. unfold convert_line.
  destruct (negb (truthy (strip line))); [now exists []|].
  destruct (contains ":" (strip line)); [|now exists []].
  destruct (re_match convert_re (strip line)) as [m|] eqn:E; [|now exists []].
  destruct (dict_get mapping (strip (group m 1))) as [id|] eqn:Eg;
    [|now exists []].
  destruct (truthy id && truthy (strip (group m 2))) eqn:Et; [|now exists []].
  apply andb_true_iff in Et as [_ Ht].
  exists [mkTurn id (strip (group m 2))]. split; [reflexivity|].
  apply dict_get_In in Eg.
  pose proof (proj1 (forallb_forall _ _) Hm _ Eg) as Hid. simpl in Hid.
  destruct (strip_trimmed _ Ht) as [Hf Hl].
  assert (Hone : no_lf (strip (group m 2)) = true).
  { apply no_lf_strip, group_one_line.
    apply (re_match_one_line convert_re (strip line)); [|assumption].
    now apply no_lf_strip. }
  simpl. unfold turn_ok, line_safe. simpl. now rewrite Hid, Hone, Hf, Hl.
Qed.

Lemma convert_lines_turns mapping script :
  mapping_canonical mapping = true ->
  exists ts, convert_lines mapping script = map turn_line ts
             /\ forallb turn_ok ts = true.
Proof.
  intros Hm. rewrite convert_lines_flat.
  pose proof (split_LF_lines script) as Hlines.
  induction (split LF script) as [|l ls IH].
  - now exists [].
  - simpl in Hlines. apply andb_true_iff in Hlines as [Hl Hls].
    destruct (IH Hls) as [ts [E H]].
    destruct (convert_line_turn mapping l Hm Hl) as [t1 [E1 H1]].
    exists (t1 ++ ts)%list. split.
    + cbn [flat_map]. now rewrite E1, E, map_app.
    + now rewrite forallb_app, H1, H.
Qed.

Lemma auto_mapping_canonical labels :
  mapping_canonical (combine labels google_ids) = true.
Proof.
  apply forallb_forall. intros [k v] Hin. simpl.
  apply in_combine_r in Hin. now apply list_mem_In.
Qed.

(** The listing of the reply exists exactly for canonical mappings. *)
Lemma mapping_listing_cases m :
  (mapping_canonical m = true /\ exists l, mapping_listing m = Ok l)
  \/ (mapping_canonical m = false /\ mapping_listing m = Raise KeyError).
Proof.
  induction m as [|[k v] m IH]; [left; split; [reflexivity | now exists []]|].
  cbn [mapping_canonical forallb mapping_listing snd].
  rewrite <- dict_has_canonical. unfold dict_has.
  destruct (dict_get GOOGLE_SPEAKERS v) as [info|]; [|now right].
  destruct IH as [[Hc [l El]] | [Hc El]].
  - left. split; [exact Hc|]. rewrite El. eexists; reflexivity.
  - right. split; [exact Hc|]. now rewrite El.
Qed.

End ConverterFacts.

(** X11.  With the automatic mapping the conversion never raises: for
    every script, absent or empty ones included, the handler answers
    either an error text or the converted script. *)
Theorem automatic_conversion_never_raises script :
  exists reply, convert_to_google_format script None = Ok reply.
Proof.
  unfold convert_to_google_format.
  destruct script as [[|c s]|]; try (eexists; reflexivity).
  rewrite resolve_mapping_auto, bind_ok.
  destruct (convert_lines _ _) as [|x xs]; [eexists; reflexivity|].
  destruct (mapping_listing_cases
              (combine (firstn 4 (detect_speakers (String c s))) google_ids))
    as [[_ [lst El]] | [Hc _]].
  - rewrite El. eexists; reflexivity.
  - rewrite auto_mapping_canonical in Hc. discriminate.
Qed.

(** X12.  With a mapping supplied by the caller, the handler raises
    [KeyError] exactly when at least one line was converted and some
    value of the mapping, used by a line or not, is none of R, S, T, U;
    in every other case it answers. *)
Theorem supplied_mapping_key_error script mapping :
  truthy script = true -> mapping <> [] ->
  (convert_to_google_format (Some script) (Some mapping) = Raise KeyError
   <-> convert_lines mapping script <> []
       /\ mapping_canonical mapping = false)
  /\ (convert_to_google_format (Some script) (Some mapping) = Raise KeyError
      \/ exists reply,
           convert_to_google_format (Some script) (Some mapping) = Ok reply).
Proof.
  intros Hs Hm. unfold convert_to_google_format.
  destruct script as [|c s]; [discriminate|].
  assert (resolve_mapping (String c s) (Some mapping) = Ok mapping) as ->
    by (destruct mapping; [congruence | reflexivity]).
  rewrite bind_ok.
  destruct (convert_lines mapping (String c s)) as [|x xs].
  - split; [|right; eexists; reflexivity].
    split; [discriminate | intros [H _]; congruence].
  - destruct (mapping_listing_cases mapping) as [[Hc [l El]] | [Hc El]];
      rewrite El, Hc.
    + split; [|right; eexists; reflexivity].
      split; [discriminate | intros [_ H]; discriminate].
    + split; [|now left].
      split; [intros _; split; [discriminate | reflexivity] | reflexivity].
Qed.

Lemma supplied_mapping_key_error_witness :
  (convert_to_google_format (Some "Alice: Hi")
     (Some [("Alice", "R"); ("Zed", "X")]) = Raise KeyError
   <-> convert_lines [("Alice", "R"); ("Zed", "X")] "Alice: Hi" <> []
       /\ mapping_canonical [("Alice", "R"); ("Zed", "X")] = false)
  /\ (convert_to_google_format (Some "Alice: Hi")
        (Some [("Alice", "R"); ("Zed", "X")]) = Raise KeyError
      \/ exists reply,
           convert_to_google_format (Some "Alice: Hi")
             (Some [("Alice", "R"); ("Zed", "X")]) = Ok reply).
Proof.
  apply (supplied_mapping_key_error "Alice: Hi" [("Alice", "R"); ("Zed", "X")]);
    [reflexivity | discriminate].
Defined.

(** X13.  A converted script is ready for the parser.  With a mapping
    whose values are among R, S, T, U (the automatic one always is), the
    parser reads the converted script back line by line: it returns one
    turn per converted line, and the canonical lines of these turns are
    the converted lines. *)
Theorem converted_script_parses_back script mapping :
  mapping_canonical mapping = true ->
  map turn_line (parse_google_script (join LF (convert_lines mapping script)))
  = convert_lines mapping script
  /\ forallb turn_ok
       (parse_google_script (join LF (convert_lines mapping script))) = true.
Proof.
  intros Hm.
  destruct (convert_lines_turns mapping script Hm) as [ts [E H]].
  rewrite E. fold (sample_script ts).
  rewrite (parse_sample_script ts H). split; [reflexivity | exact H].
Qed.

Lemma converted_script_parses_back_witness :
  map turn_line
    (parse_google_script
       (join LF (convert_lines [("Host", "T"); ("Guest", "U")]
                   ("Host [smiling]: Welcome | all" ++ LF ++ "Guest: Thanks"))))
  = convert_lines [("Host", "T"); ("Guest", "U")]
      ("Host [smiling]: Welcome | all" ++ LF ++ "Guest: Thanks")
  /\ forallb turn_ok
       (parse_google_script
          (join LF (convert_lines [("Host", "T"); ("Guest", "U")]
                      ("Host [smiling]: Welcome | all" ++ LF ++ "Guest: Thanks"))))
     = true.
Proof.
  apply (converted_script_parses_back
           ("Host [smiling]: Welcome | all" ++ LF ++ "Guest: Thanks")
           [("Host", "T"); ("Guest", "U")]). reflexivity.
Defined.

(* ================================================================== *)
(** ** The statistics of a parsed script *)

Section Statistics.

Lemma count_of_set_same (d : dict nat) k v : count_of (dict_set d k v) k = v.
Proof.
  unfold count_of. induction d as [|[k' v'] d IH]; simpl.
  - now rewrite String.eqb_refl.
  - destruct (String.eqb_spec k k') as [-> | Hne]; simpl.
    + now rewrite String.eqb_refl.
    + destruct (String.eqb_spec k k'); [contradiction | exact IH].
Qed.

Lemma count_of_set_other (d : dict nat) k v s :
  s <> k -> count_of (dict_set d k v) s = count_of d s.
Proof.
  intros Hs. unfold count_of. induction d as [|[k' v'] d IH]; simpl.
  - destruct (String.eqb_spec s k); [contradiction | reflexivity].
  - destruct (String.eqb_spec k k') as [-> | Hne]; simpl.
    + destruct (String.eqb_spec s k'); [contradiction | reflexivity].
    + destruct (String.eqb_spec s k'); [reflexivity | exact IH].
Qed.

Lemma keys_set_incl {V} (d : dict V) k v x :
  In x (dict_keys (dict_set d k v)) -> x = k \/ In x (dict_keys d).
Proof.
  induction d as [|[k' v'] d IH]; simpl.
  - intros [<- | []]. now left.
  - destruct (String.eqb_spec k k') as [-> | Hne]; simpl.
    + intros [<- | H]; auto.
    + intros [<- | H]; auto. destruct (IH H); auto.
Qed.

Lemma keys_set_NoDup {V} (d : dict V) k v :
  NoDup (dict_keys d) -> NoDup (dict_keys (dict_set d k v)).
Proof.
  induction d as [|[k' v'] d IH]; simpl; intros H.
  - constructor; [intros [] | constructor].
  - destruct (String.eqb_spec k k') as [-> | Hne]; simpl; [assumption|].
    inversion H as [|? ? Hnot Hd]; subst. constructor; [|now apply IH].
    intros Hin. apply keys_set_incl in Hin as [-> | Hin]; contradiction.
Qed.

Lemma sum_set_increment (d : dict nat) k :
  list_sum (map snd (dict_set d k (count_of d k + 1)))
  = list_sum (map snd d) + 1.
Proof.
  induction d as [|[k' v'] d IH]; [reflexivity|].
  unfold count_of in *. simpl.
  destruct (String.eqb_spec k k') as [-> | Hne]; simpl; [lia|].
  rewrite IH. lia.
Qed.

(** The counting loop from any starting table. *)
Lemma counting_loop turns : forall acc,
  let counts :=
    fold_left (fun counts turn =>
                 dict_set counts (speaker turn)
                          (count_of counts (speaker turn) + 1)) turns acc in
  list_sum (map snd counts) = list_sum (map snd acc) + List.length turns
  /\ (NoDup (dict_keys acc) -> NoDup (dict_keys counts))
  /\ (forall s, count_of counts s
                = count_of acc s + count_occ string_dec (map speaker turns) s)
  /\ (forall k, In k (dict_keys counts) ->
                In k (dict_keys acc) \/ In k (map speaker turns)).
Proof.
  induction turns as [|t turns IH]; intros acc; cbn [fold_left].
  - cbn. repeat split; auto.
  - destruct (IH (dict_set acc (speaker t) (count_of acc (speaker t) + 1)))
      as [Hsum [Hnd [Hcount Hkeys]]].
    cbv zeta in *. repeat split.
    + rewrite Hsum, sum_set_increment. cbn [List.length]. lia.
    + intros H. now apply Hnd, keys_set_NoDup.
    + intros s. rewrite Hcount. cbn [map count_occ].
      destruct (string_dec (speaker t) s) as [<- | Hne].
      * rewrite count_of_set_same. lia.
      * rewrite count_of_set_other by congruence. lia.
    + intros k Hk. apply Hkeys in Hk as [Hk | Hk].
      * apply keys_set_incl in Hk as [-> | Hk]; [right; now left | now left].
      * right. now right.
Qed.

Lemma insert_sorted_In x y l : In y (insert_sorted x l) <-> y = x \/ In y l.
Proof.
  induction l as [|z l IH]; simpl; [intuition|].
  destruct (String.leb x z); simpl; [intuition|].
  rewrite IH. intuition.
Qed.

Lemma sorted_In y l : In y (sorted l) <-> In y l.
Proof.
  unfold sorted. induction l as [|x l IH]; simpl; [tauto|].
  rewrite insert_sorted_In, IH. intuition.
Qed.

Lemma insert_sorted_length x l :
  List.length (insert_sorted x l) = S (List.length l).
Proof.
  induction l as [|z l IH]; simpl; [reflexivity|].
  destruct (String.leb x z); simpl; [reflexivity | now rewrite IH].
Qed.

Lemma sorted_length l : List.length (sorted l) = List.length l.
Proof.
  unfold sorted. induction l as [|x l IH]; simpl; [reflexivity|].
  now rewrite insert_sorted_length, IH.
Qed.

Lemma guide_entries_ok keys :
  (forall k, In k keys -> is_canonical k = true) ->
  exists g, guide_entries keys = Ok g /\ map fst g = keys.
Proof.
  induction keys as [|k keys IH]; intros H; [now exists []|].
  cbn [guide_entries].
  pose proof (H k (or_introl eq_refl)) as Hk.
  rewrite <- dict_has_canonical in Hk. unfold dict_has in Hk.
  destruct (dict_get GOOGLE_SPEAKERS k) as [info|]; [|discriminate].
  destruct IH as [g [E Hg]]; [intros k' Hk'; apply H; now right|].
  rewrite E, bind_ok. eexists. split; [reflexivity|].
  cbn [map fst]. now rewrite Hg.
Qed.

End Statistics.

(** X14.  The statistics add up: the counts of [speaker_counts] sum to
    the number of turns, each speaker is listed once, and the count of a
    speaker is the number of turns it speaks. *)
Theorem speaker_counts_add_up turns :
  list_sum (map snd (speaker_counts turns)) = List.length turns
  /\ NoDup (dict_keys (speaker_counts turns))
  /\ forall s, count_of (speaker_counts turns) s
               = count_occ string_dec (map speaker turns) s.
Proof.
  destruct (counting_loop turns []) as [Hsum [Hnd [Hcount _]]].
  cbv zeta in *. unfold speaker_counts. repeat split.
  - exact Hsum.
  - apply Hnd. constructor.
  - intros s. now rewrite Hcount.
Qed.

(** X15.  The speaker guide of a parsed script can always be built:
    whatever the script, looking up the speakers of its parsed turns in
    [GOOGLE_SPEAKERS] raises no [KeyError], and the guide has at most
    four entries, one per speaker used. *)
Theorem speaker_guide_of_parsed_script script :
  exists g,
    speaker_guide (parse_google_script script) = Ok g
    /\ map fst g
       = sorted (dict_keys (speaker_counts (parse_google_script script)))
    /\ List.length g <= 4.
Proof.
  set (turns := parse_google_script script).
  assert (Hvalid : forallb turn_valid turns = true).
  { subst turns. unfold parse_google_script.
    destruct (negb _ && truthy (strip script)) eqn:E; [|apply tiers_valid].
    apply andb_true_iff in E as [E _]. apply negb_true_iff in E.
    destruct (fold_left _ _ _); [apply fallback_valid | discriminate]. }
  destruct (counting_loop turns []) as [_ [Hnd [_ Hkeys]]]. cbv zeta in *.
  fold (speaker_counts turns) in Hnd, Hkeys.
  assert (Hcanon : forall k, In k (dict_keys (speaker_counts turns)) ->
                             is_canonical k = true).
  { intros k Hk. apply Hkeys in Hk as [[] | Hk].
    apply in_map_iff in Hk as [t [<- Ht]].
    pose proof (proj1 (forallb_forall _ _) Hvalid t Ht) as Hv.
    unfold turn_valid in Hv. apply andb_true_iff in Hv as [Hv _].
    now apply andb_true_iff in Hv as [Hv _]. }
  destruct (guide_entries_ok (sorted (dict_keys (speaker_counts turns))))
    as [g [E Hg]].
  { intros k Hk. apply Hcanon. now apply sorted_In. }
  exists g. split; [exact E|]. split; [exact Hg|].
  rewrite <- (length_map fst g), Hg, sorted_length.
  change 4 with (List.length google_ids).
  apply NoDup_incl_length; [apply Hnd; constructor|].
  intros k Hk. apply list_mem_In. now apply Hcanon.
Qed.

(* ================================================================== *)
(** ** Pipe lines with a colon, and parsing twice *)

Section ParserMore.

Lemma pipe_line_body a b turns :
  contains "|" a = false ->
  startswith (lstrip a) "#" = false ->
  startswith (lstrip a) "//" = false ->
  parse_line (a ++ "|" ++ b) turns
  = if is_canonical (upper (strip a)) && truthy (strip b)
    then (turns ++ [mkTurn (upper (strip a)) (strip b)])%list
    else turns.
Proof.
  intros Hp Hh Hs. unfold parse_line.
  rewrite strip_around_pipe, startswith_hash_pipe, startswith_slashes_pipe.
  rewrite Hh, Hs, contains_pipe_mid.
  assert (truthy (lstrip a ++ "|" ++ rstrip b) = true) as ->
    by (destruct (lstrip a); reflexivity).
  cbn [negb orb]. unfold pipe_tier.
  rewrite split_first_pipe by now apply contains_pipe_lstrip.
  cbn [List.length Nat.eqb nth].
  rewrite strip_lstrip, strip_rstrip, dict_has_canonical. reflexivity.
Qed.

Lemma upper_char_nonempty c : upper_char c <> "".
Proof.
  unfold upper_char.
  repeat match goal with
         | |- context [if ?b then _ else _] => destruct b
         end; discriminate.
Qed.

Lemma upper_single s x :
  upper s = String x "" -> exists c, s = String c "" /\ upper_char c = String x "".
Proof.
  destruct s as [|c s]; [discriminate|].
  cbn [upper]. intros H.
  destruct (upper_char c) as [|u us] eqn:Eu; [now apply upper_char_nonempty in Eu|].
  cbn [append] in H. injection H as -> H.
  destruct us; [|discriminate]. cbn [append] in H.
  destruct s as [|d s]; [now exists c|].
  cbn [upper] in H.
  destruct (upper_char d) eqn:Ed; [now apply upper_char_nonempty in Ed | discriminate].
Qed.

Lemma colon_survives_lstrip s :
  contains ":" s = true -> contains ":" (lstrip s) = true.
Proof.
  induction s as [|c s IH]; [discriminate|].
  intros H. cbn [lstrip]. destruct (is_space c) eqn:E; [|assumption].
  rewrite contains_char_step in H.
  destruct (Ascii.eqb_spec c ":") as [-> |]; [discriminate E|].
  now apply IH.
Qed.

Lemma colon_survives_rstrip s :
  contains ":" s = true -> contains ":" (rstrip s) = true.
Proof.
  induction s as [|c s IH]; [discriminate|].
  intros H. rewrite contains_char_step in H. cbn [rstrip].
  destruct (Ascii.eqb_spec c ":") as [-> | Hc].
  - cbn [is_space]. simpl. reflexivity.
  - simpl in H. specialize (IH H).
    destruct (rstrip s) eqn:Er; [discriminate IH|].
    rewrite andb_false_r. rewrite contains_char_step, IH. apply orb_true_r.
Qed.

(** A label holding a colon is no canonical speaker, whatever its case. *)
Lemma colon_label_not_canonical a :
  contains ":" a = true -> is_canonical (upper (strip a)) = false.
Proof.
  intros H.
  assert (Hs : contains ":" (strip a) = true)
    by (unfold strip; now apply colon_survives_rstrip, colon_survives_lstrip).
  destruct (is_canonical (upper (strip a))) eqn:E; [|reflexivity].
  exfalso. apply canonical_cases in E.
  assert (Hx : exists x, upper (strip a) = String x ""
                         /\ (x = "R" \/ x = "S" \/ x = "T" \/ x = "U")%char).
  { destruct E as [E | [E | [E | E]]]; rewrite E; eexists; split;
      try reflexivity; auto. }
  destruct Hx as [x [Ex Hx]].
  apply upper_single in Ex as [c [Ec Eu]]. rewrite Ec in Hs.
  rewrite contains_char_step in Hs. simpl in Hs. rewrite orb_false_r in Hs.
  apply Ascii.eqb_eq in Hs. subst c.
  vm_compute in Eu. injection Eu as <-.
  destruct Hx as [Hx | [Hx | [Hx | Hx]]]; discriminate Hx.
Qed.

Lemma split_go_one_line sep : forall s maxsplit skip,
  no_lf s = true -> forallb no_lf (split_go sep maxsplit skip s) = true.
Proof.
  induction s as [|c s IH]; intros maxsplit skip H; [reflexivity|].
  simpl in H. apply andb_true_iff in H as [Hc Hs].
  cbn [split_go]. destruct skip as [|n]; [|now apply IH].
  destruct (can_split maxsplit && startswith (String c s) sep).
  - cbn [forallb no_lf andb]. now apply IH.
  - specialize (IH maxsplit 0 Hs).
    destruct (split_go sep maxsplit 0 s) as [|x xs]; simpl in *;
      now rewrite Hc.
Qed.

Lemma pipe_tier_one_line l :
  no_lf l = true -> forallb (fun t => no_lf (text t)) (pipe_tier l []) = true.
Proof.
  intros Hn. unfold pipe_tier.
  destruct (List.length (split_max "|" l 1) =? 2)%nat; [|reflexivity].
  destruct (_ && _); [|reflexivity].
  cbn [append app forallb text]. rewrite andb_true_r.
  apply no_lf_strip.
  pose proof (split_go_one_line "|" l (Some 1) 0 Hn) as H.
  fold (split_max "|" l 1) in H.
  destruct (nth_in_or_default 1 (split_max "|" l 1) "") as [Hin | ->];
    [|reflexivity].
  now apply (proj1 (forallb_forall _ _) H).
Qed.

Lemma letter_colon_text_one_line l t :
  no_lf l = true -> letter_colon_text l = Some t -> no_lf (text t) = true.
Proof.
  unfold letter_colon_text. destruct l as [|c [|d r]]; try discriminate.
  intros Hn. destruct (_ && _); [|discriminate].
  intros H. injection H as <-. cbn [text].
  apply no_lf_strip. now apply no_lf_tail, no_lf_tail in Hn.
Qed.

Lemma parse_line_one_line line :
  no_lf line = true ->
  forallb (fun t => no_lf (text t)) (parse_line line []) = true.
Proof.
  intros Hn. pose proof (no_lf_strip _ Hn) as Hs. unfold parse_line.
  destruct (negb _ || _ || _); [reflexivity|].
  destruct (contains "|" (strip line)); [now apply pipe_tier_one_line|].
  destruct (contains ":" (strip line)); [|reflexivity].
  rewrite colon_tier_spec by assumption.
  destruct (letter_colon_text (strip line)) as [t|] eqn:E; [|reflexivity].
  simpl. now rewrite (letter_colon_text_one_line _ _ Hs E).
Qed.

End ParserMore.

(** X16.  A pipe line whose part before the first pipe holds a colon
    emits nothing: a colon-format line such as [R: yes | no] is taken by
    the pipe tier, its label [R: yes] is no speaker, and the colon tier
    is not tried. *)
Theorem colon_line_with_pipe_dropped a b turns :
  contains "|" a = false ->
  contains ":" a = true ->
  parse_line (a ++ "|" ++ b) turns = turns.
Proof.
  intros Hp Hc.
  destruct (startswith (lstrip a) "#") eqn:Hh.
  { apply parse_line_skips. right; left.
    now rewrite strip_around_pipe, startswith_hash_pipe. }
  destruct (startswith (lstrip a) "//") eqn:Hs.
  { apply parse_line_skips. right; right.
    now rewrite strip_around_pipe, startswith_slashes_pipe. }
  rewrite pipe_line_body by assumption.
  now rewrite colon_label_not_canonical.
Qed.

Lemma colon_line_with_pipe_dropped_witness :
  parse_line ("R: yes " ++ "|" ++ " no") [mkTurn "S" "Hi"] = [mkTurn "S" "Hi"].
Proof.
  apply (colon_line_with_pipe_dropped "R: yes " " no" [mkTurn "S" "Hi"]);
    reflexivity.
Defined.

(** X17.  Parsing is stable on recognised scripts: when at least one
    line of the script yields a turn, writing the parsed turns as
    canonical pipe lines and parsing them again gives the same turns. *)
Theorem parse_twice_recognised script :
  (exists line, In line (split LF (strip script))
                /\ parse_line line [] <> []) ->
  parse_google_script (sample_script (parse_google_script script))
  = parse_google_script script.
Proof.
  intros [line [Hin Hne]].
  assert (Htiers : parse_google_script script
                   = flat_map (fun l => parse_line l [])
                              (split LF (strip script))).
  { unfold parse_google_script. rewrite parse_lines_flat. simpl app.
    destruct (flat_map _ _) as [|t ts] eqn:E; [|reflexivity].
    exfalso. apply Hne.
    assert (Hsub : forall x, In x (parse_line line []) -> In x []).
    { intros x Hx. rewrite <- E. apply in_flat_map. now exists line. }
    destruct (parse_line line []) as [|x xs]; [reflexivity|].
    destruct (Hsub x (or_introl eq_refl)). }
  apply parse_sample_script. rewrite Htiers.
  apply forallb_flat_map. intros l Hl.
  assert (Hn : no_lf l = true)
    by (apply (proj1 (forallb_forall _ _) (split_LF_lines (strip script))); assumption).
  pose proof (parse_line_valid l Hn) as Hv.
  pose proof (parse_line_one_line l Hn) as Ho.
  apply forallb_forall. intros t Ht.
  pose proof (proj1 (forallb_forall _ _) Hv t Ht) as Hvt.
  pose proof (proj1 (forallb_forall _ _) Ho t Ht) as Hot. simpl in Hot.
  unfold turn_valid in Hvt. apply andb_true_iff in Hvt as [Hvt Hlast].
  apply andb_true_iff in Hvt as [Hc Hf].
  unfold turn_ok, line_safe. now rewrite Hc, Hot, Hf, Hlast.
Qed.

Lemma parse_twice_recognised_witness :
  parse_google_script
    (sample_script (parse_google_script ("# intro" ++ LF ++ " s | Hello " ++ LF ++ "T:  Bye")))
  = parse_google_script ("# intro" ++ LF ++ " s | Hello " ++ LF ++ "T:  Bye").
Proof.
  apply (parse_twice_recognised ("# intro" ++ LF ++ " s | Hello " ++ LF ++ "T:  Bye")).
  exists "T:  Bye". split; [vm_compute; auto | discriminate].
Defined.

(* ================================================================== *)
(** ** The generator and the [random] module *)

Section RandomModule.

(** A draw is visible to its caller: it advances the state, and its
    result depends on the state. *)
Lemma random_choice_reads_state :
  fst (random_choice ["a"; "b"] (mkRandomState (fun _ => 0) 0))
  <> fst (random_choice ["a"; "b"] (mkRandomState (fun _ => 1) 0))
  /\ forall (l : list string) g, l <> [] -> snd (random_choice l g) <> g.
Proof.
  split; [discriminate|].
  intros [|x l] [u n] H; [congruence|]. simpl. intros E.
  injection E as E. induction n; [discriminate | now injection E].
Qed.

Ltac step_w :=
  repeat (match goal with
          | |- context [match list_get ?l ?j with Ok _ => _ | Raise _ => _ end] =>
              destruct (list_get l j)
          | |- context [match py_mod ?a ?b with Ok _ => _ | Raise _ => _ end] =>
              destruct (py_mod a b)
          | |- context [match ?x with Some _ => _ | None => _ end] =>
              destruct x
          | |- context [if ?b then _ else _] => destruct b
          end; cbv beta iota).

(** The iteration neither reads nor advances the state. *)
Lemma main_turn_w_pure topic sp ctx i turns g :
  main_turn_w topic sp ctx i turns g = (main_turn topic sp ctx i turns, g).
Proof.
  unfold main_turn_w, main_turn, bind_w, pure_w, bind. cbv beta iota.
  step_w; reflexivity.
Qed.

Lemma for_each_w_pure {A S} (body_w : A -> S -> World S)
      (body : A -> S -> result S) l :
  (forall i st g, body_w i st g = (body i st, g)) ->
  forall st g, for_each_w l body_w st g = (for_each l body st, g).
Proof.
  intros H. induction l as [|i l IH]; intros st g; [reflexivity|].
  cbn [for_each_w for_each]. unfold bind_w, bind. rewrite H.
  destruct (body i st); [apply IH | reflexivity].
Qed.

Lemma generate_w_pure topic f d ctx g :
  generate_dialogue_turns_w topic f d ctx g
  = (generate_dialogue_turns topic f d ctx, g).
Proof.
  unfold generate_dialogue_turns_w, generate_dialogue_turns, bind_w, bind.
  unfold pure_w at 1. cbv beta iota.
  destruct (opening topic f (speakers (format_lookup f)) []) as [o|e];
    [|reflexivity].
  rewrite (for_each_w_pure _ (main_turn topic (speakers (format_lookup f)) ctx))
    by (intros; apply main_turn_w_pure).
  destruct (for_each _ _ o); reflexivity.
Qed.

(** The turns of an iteration are the pool entries at the loop index. *)
Lemma main_turn_closed topic sp ctx i turns :
  sp <> [] -> key_points_indexable ctx = true ->
  main_turn topic sp ctx i turns
  = Ok (turns ++ iteration_turns topic sp ctx i)%list.
Proof.
  intros Hsp Hkp.
  assert (E0 : list_get sp 0 = Ok (nth 0 sp ""))
    by (destruct sp; [congruence | reflexivity]).
  unfold main_turn, iteration_turns. rewrite E0, bind_ok.
  rewrite (pick_at content_prompts i "") by discriminate.
  rewrite (pick_at sp 1 "") by assumption.
  rewrite (pick_at responses i "") by discriminate.
  set (intro := nth (i mod List.length responses) responses "").
  assert (Hresp :
    (match ctx with
     | Some c =>
         if context_truthy c then
           match key_points c with
           | Some kp =>
               pi <- py_mod i (List.length kp) ;;
               point <- list_get kp pi ;;
               Ok (intro ++ " When it comes to " ++ point ++ " in "
                   ++ topic ++ ", we're seeing significant developments.")
           | None =>
               Ok (intro ++ " " ++ topic
                   ++ " has many dimensions we need to consider.")
           end
         else Ok (intro ++ " " ++ topic
                  ++ " has many dimensions we need to consider.")
     | None => Ok (intro ++ " " ++ topic
                   ++ " has many dimensions we need to consider.")
     end)
    = Ok (intro ++
          match ctx with
          | Some c =>
              match key_points c with
              | Some kp =>
                  " When it comes to " ++ nth (i mod List.length kp) kp ""
                  ++ " in " ++ topic
                  ++ ", we're seeing significant developments."
              | None => " " ++ topic
                        ++ " has many dimensions we need to consider."
              end
          | None => " " ++ topic ++ " has many dimensions we need to consider."
          end)).
  { destruct ctx as [[[kp|] other]|]; cbn [key_points] in *.
    - destruct kp as [|k kp]; [discriminate|].
      cbn [context_truthy key_points].
      now rewrite (pick_at (k :: kp) i "") by discriminate.
    - cbn [context_truthy key_points other_entries].
      destruct other; reflexivity.
    - reflexivity. }
  rewrite Hresp, bind_ok. cbv zeta.
  destruct ((2 <? List.length sp) && (i mod 3 =? 0))%nat.
  - rewrite (pick_at sp 2 "") by assumption.
    rewrite (pick_at reactions i "") by discriminate.
    unfold append. now rewrite <- !app_assoc.
  - unfold append. now rewrite <- !app_assoc.
Qed.

(** An iteration reads the context through its key points only. *)
Lemma main_turn_key_points_only topic sp ctx1 ctx2 i turns :
  key_points_of ctx1 = key_points_of ctx2 ->
  main_turn topic sp ctx1 i turns = main_turn topic sp ctx2 i turns.
Proof.
  intros H. unfold main_turn.
  destruct ctx1 as [[[kp1|] o1]|], ctx2 as [[[kp2|] o2]|];
    cbn [key_points_of key_points] in H; try discriminate;
    try (injection H as <-);
    cbn [context_truthy key_points other_entries];
    repeat match goal with
           | |- context [match ?o with [] => _ | _ :: _ => _ end] => destruct o
           end; reflexivity.
Qed.

End RandomModule.

(** C9.  The generator beside the [random] module: two calls with the
    same topic, format name, duration and context return the same
    outcome whatever the states of the module at the two calls, and a
    call leaves that state as it found it, so no draw is taken.  When
    [key_points] can be indexed, iteration [i] appends exactly the pool
    entries at index [i] modulo the size of each pool. *)
Theorem generate_deterministic topic f d ctx g1 g2 :
  fst (generate_dialogue_turns_w topic f d ctx g1)
  = fst (generate_dialogue_turns_w topic f d ctx g2)
  /\ snd (generate_dialogue_turns_w topic f d ctx g1) = g1
  /\ (key_points_indexable ctx = true ->
      forall i turns,
        main_turn_w topic (speakers (format_lookup f)) ctx i turns g1
        = (Ok (turns ++ iteration_turns topic (speakers (format_lookup f))
                          ctx i)%list, g1)).
Proof.
  rewrite !generate_w_pure. repeat split.
  intros Hkp i turns.
  rewrite main_turn_w_pure, main_turn_closed;
    [reflexivity | apply speakers_nonempty | assumption].
Qed.

Lemma generate_deterministic_witness :
  main_turn_w "tea" (speakers (format_lookup "roundtable"))
    (Some (mkContext (Some ["green"; "black"]) [])) 3 []
    (mkRandomState (fun n => n) 0)
  = (Ok ([] ++ iteration_turns "tea" (speakers (format_lookup "roundtable"))
                 (Some (mkContext (Some ["green"; "black"]) [])) 3)%list,
     mkRandomState (fun n => n) 0).
Proof.
  apply (proj2 (proj2 (generate_deterministic "tea" "roundtable" 6
                         (Some (mkContext (Some ["green"; "black"]) []))
                         (mkRandomState (fun n => n) 0)
                         (mkRandomState (fun n => n + 1) 5)))).
  reflexivity.
Defined.

(** X10.  Entries of the context other than [key_points] play no part in
    generation: two contexts with the same [key_points] give the same
    outcome whatever their other entries, and a context without
    [key_points] gives the outcome of no context at all. *)
Theorem context_read_through_key_points topic f d ctx1 ctx2 :
  key_points_of ctx1 = key_points_of ctx2 ->
  generate_dialogue_turns topic f d ctx1
  = generate_dialogue_turns topic f d ctx2.
Proof.
  intros H. unfold generate_dialogue_turns.
  destruct (opening topic f (speakers (format_lookup f)) []) as [o|e];
    [|reflexivity].
  rewrite !bind_ok.
  rewrite (for_each_ext _ (main_turn topic (speakers (format_lookup f)) ctx2));
    [reflexivity|].
  intros i st. now apply main_turn_key_points_only.
Qed.

Lemma context_read_through_key_points_witness :
  generate_dialogue_turns "tea" "dialogue" 5
    (Some (mkContext (Some ["green"; "black"]) [("tone", "calm")]))
  = generate_dialogue_turns "tea" "dialogue" 5
      (Some (mkContext (Some ["green"; "black"]) [("audience", "experts")])).
Proof.
  apply (context_read_through_key_points "tea" "dialogue" 5
           (Some (mkContext (Some ["green"; "black"]) [("tone", "calm")]))
           (Some (mkContext (Some ["green"; "black"]) [("audience", "experts")]))).
  reflexivity.
Defined.

(** C10 (the code departs from the claim).  The claim says a supplied
    mapping to a value outside R, S, T, U ends up in the produced
    canonical text.  The conversion loop does append the line with that
    value as it is, but the handler then looks the value up in
    [GOOGLE_SPEAKERS] to build its reply and raises [KeyError]: with
    Alice mapped to any non-empty value [v] that is none of R, S, T, U,
    the script [Alice: Hi] gives the converted line [v|Hi] and no reply. *)
Theorem supplied_noncanonical_value_aborts v :
  truthy v = true ->
  is_canonical v = false ->
  convert_lines [("Alice", v)] "Alice: Hi" = [v ++ "|Hi"]
  /\ convert_to_google_format (Some "Alice: Hi") (Some [("Alice", v)])
     = Raise KeyError.
Proof.
  intros Hv Hc.
  assert (Hlines : convert_lines [("Alice", v)] "Alice: Hi" = [v ++ "|Hi"]).
  { destruct v as [|c v]; [discriminate|]. reflexivity. }
  split; [exact Hlines|].
  unfold convert_to_google_format.
  cbn [resolve_mapping bind]. rewrite Hlines.
  cbn [mapping_listing].
  rewrite <- dict_has_canonical in Hc. unfold dict_has in Hc.
  destruct (dict_get GOOGLE_SPEAKERS v); [discriminate | reflexivity].
Qed.

Lemma supplied_noncanonical_value_aborts_witness :
  convert_lines [("Alice", "X")] "Alice: Hi" = ["X" ++ "|Hi"]
  /\ convert_to_google_format (Some "Alice: Hi") (Some [("Alice", "X")])
     = Raise KeyError.
Proof.
  apply (supplied_noncanonical_value_aborts "X"); reflexivity.
Defined.
